(** * Object diff, document-number validators and deferred promises

    A shallow embedding of three modules of the repository:

    - [diff/object-diff.ts]: the recursive [diff] function together with
      [serializeValue] (a thin wrapper around [JSON.stringify]);
    - [validators/document.validator.ts]: the class [DocumentValidator] with
      [normalize], [isValidDNI], [isValidNIE], [isValidSpanishSSN] and
      [isValidIBAN];
    - [helpers/deferred.ts]: [defer], [deferWithTimeout] and
      [deferDelayed], as state machines driven by the calls made on them
      and by their timers.

    Modelling conventions.

    - JavaScript values are the inductive type [JS.value]: [undefined],
      [null], booleans, numbers, strings, arrays and plain objects.  Being
      inductive, values are finite trees: cyclic object graphs, functions,
      symbols, bigints and exotic objects (with [toJSON], getters, ...) are
      outside the model.
    - Numbers are [NaN], the two infinities and the safe integers, those of
      magnitude below 2^53 ([Number.isSafeInteger]): each of them is a
      double, and [JSON.stringify] prints it with its exact decimal digits.
      [Int 0] stands for both zeros, which [===] and [JSON.stringify] do not
      tell apart.  Fractions and larger magnitudes are outside the model.
    - A plain object is the list of its own enumerable string-keyed
      properties, in the order [Object.keys] enumerates them.
    - A call that can throw returns an [outcome]: [Returns v] or [Throws e].
    - Strings are [string]s of ASCII characters: on these [\s] is tab, line
      feed, vertical tab, form feed, carriage return and space, and
      [toUpperCase] maps [a-z] to [A-Z].
    - [new Set(xs)] is the list of the distinct elements of [xs] in insertion
      order. *)

From Stdlib Require Import ZArith List String Ascii Bool Lia Arith.
From Stdlib Require Import Numbers.DecimalString.
From Stdlib Require Import Sorting.Permutation.
From Stdlib Require Import Logic.Eqdep_dec.
Import ListNotations.

Open Scope list_scope.
Open Scope string_scope.

Set Warnings "-register-all".

(** ** JavaScript values *)

Module JS.

(** [Number.isSafeInteger(z)] for an integer [z]. *)
Definition is_safe_integer (z : Z) : bool :=
  (Z.abs z <? 9007199254740992)%Z.

Inductive number : Type :=
| NaN : number
| Infinity (negative : bool) : number
| Int (z : Z) (safe : is_safe_integer z = true) : number.

Inductive value : Type :=
| VUndefined : value
| VNull : value
| VBool (b : bool) : value
| VNum (x : number) : value
| VStr (s : string) : value
| VArr (elements : list value) : value
| VObj (properties : list (string * value)) : value.

(** [typeof v]. *)
Definition typeof (v : value) : string :=
  match v with
  | VUndefined => "undefined"
  | VNull => "object"
  | VBool _ => "boolean"
  | VNum _ => "number"
  | VStr _ => "string"
  | VArr _ => "object"
  | VObj _ => "object"
  end.

(** [v == null]. *)
Definition nullish (v : value) : bool :=
  match v with
  | VUndefined | VNull => true
  | _ => false
  end.

(** [Array.isArray(v)]. *)
Definition isArray (v : value) : bool :=
  match v with
  | VArr _ => true
  | _ => false
  end.

(** [===] on numbers: [NaN] differs from everything, itself included. *)
Definition number_strict_equal (x y : number) : bool :=
  match x, y with
  | Int a _, Int b _ => Z.eqb a b
  | Infinity a, Infinity b => Bool.eqb a b
  | _, _ => false
  end.

(** [a === b] where both operands are primitives.  On arrays and objects
    [===] is reference identity, which a tree of values does not carry;
    [diff] settles every pair that holds an array or an object in an earlier
    branch and compares two booleans, two numbers or two strings this way
    (lemma [diff_primitives]). *)
Definition strict_equal (a b : value) : bool :=
  match a, b with
  | VUndefined, VUndefined => true
  | VNull, VNull => true
  | VBool x, VBool y => Bool.eqb x y
  | VNum x, VNum y => number_strict_equal x y
  | VStr x, VStr y => String.eqb x y
  | _, _ => false
  end.

(** Decimal numerals, as [Number.prototype.toString] and array indices
    print them. *)
Definition string_of_Z (z : Z) : string :=
  NilZero.string_of_int (Z.to_int z).

Definition string_of_nat (n : nat) : string :=
  NilZero.string_of_uint (Nat.to_uint n).

(** [Object.keys(v)] for an array or an object. *)
Definition Object_keys (v : value) : list string :=
  match v with
  | VArr xs => map string_of_nat (seq 0 (List.length xs))
  | VObj ps => map fst ps
  | _ => []
  end.

Fixpoint assoc (k : string) (ps : list (string * value)) : option value :=
  match ps with
  | [] => None
  | (k', v) :: rest => if String.eqb k' k then Some v else assoc k rest
  end.

(** [v[k]], the own property of an array (by index) or an object (by key);
    [undefined] when there is none. *)
Definition get (v : value) (k : string) : value :=
  match v with
  | VArr xs =>
      match find (fun i => String.eqb (string_of_nat i) k) (seq 0 (List.length xs)) with
      | Some i => nth i xs VUndefined
      | None => VUndefined
      end
  | VObj ps =>
      match assoc k ps with
      | Some x => x
      | None => VUndefined
      end
  | _ => VUndefined
  end.

(** *** JSON.stringify *)

Definition hex_digit (n : nat) : ascii :=
  nth n (list_ascii_of_string "0123456789abcdef") "0"%char.

(** One character of [QuoteJSONString]. *)
Definition quote_char (c : ascii) : string :=
  let n := nat_of_ascii c in
  if Nat.eqb n 8 then "\b"
  else if Nat.eqb n 9 then "\t"
  else if Nat.eqb n 10 then "\n"
  else if Nat.eqb n 12 then "\f"
  else if Nat.eqb n 13 then "\r"
  else if Nat.eqb n 34 then String "\"%char (String (ascii_of_nat 34) "")
  else if Nat.eqb n 92 then "\\"
  else if Nat.ltb n 32 then
    "\u00" ++ String (hex_digit (n / 16)) (String (hex_digit (n mod 16)) "")
  else String c "".

Fixpoint quote_body (s : string) : string :=
  match s with
  | EmptyString => ""
  | String c rest => quote_char c ++ quote_body rest
  end.

Definition dquote : string := String (ascii_of_nat 34) "".

Definition quote (s : string) : string := dquote ++ quote_body s ++ dquote.

Definition number_to_json (x : number) : string :=
  match x with
  | Int z _ => string_of_Z z
  | _ => "null"
  end.

(** [parts.join(sep)] on strings. *)
Fixpoint join (sep : string) (parts : list string) : string :=
  match parts with
  | [] => ""
  | [p] => p
  | p :: rest => p ++ sep ++ join sep rest
  end.

(** [JSON.stringify(v)]; [None] is the [undefined] it returns for
    [undefined].  An [undefined] array element prints as [null], an
    [undefined] property is left out. *)
Fixpoint stringify (v : value) : option string :=
  match v with
  | VUndefined => None
  | VNull => Some "null"
  | VBool b => Some (if b then "true" else "false")
  | VNum x => Some (number_to_json x)
  | VStr s => Some (quote s)
  | VArr xs =>
      Some ("[" ++ join ","
              (map (fun x => match stringify x with
                             | Some s => s
                             | None => "null"
                             end) xs) ++ "]")
  | VObj ps =>
      Some ("{" ++ join ","
              (flat_map (fun p => match stringify (snd p) with
                                  | Some s => [quote (fst p) ++ ":" ++ s]
                                  | None => []
                                  end) ps) ++ "}")
  end.

(** A string-or-undefined result stored back into a JavaScript value. *)
Definition of_optional (o : option string) : value :=
  match o with
  | Some s => VStr s
  | None => VUndefined
  end.

(** Number of array and object nodes of a value. *)
Fixpoint size (v : value) : nat :=
  match v with
  | VArr xs => S (list_sum (map size xs))
  | VObj ps => S (list_sum (map (fun p => size (snd p)) ps))
  | _ => 0
  end.

End JS.

(** ** Insertion-ordered sets ([Set]) *)

Module JSSet.

Section WithEquality.
Context {A : Type} (eqb : A -> A -> bool).

(** [s.has(x)]. *)
Definition has (s : list A) (x : A) : bool := existsb (eqb x) s.

(** [s.add(x)]. *)
Definition add (s : list A) (x : A) : list A :=
  if has s x then s else (s ++ [x])%list.

(** [new Set(xs)]; the resulting list is also [[...s]]. *)
Definition of_list (xs : list A) : list A := fold_left add xs [].
End WithEquality.

End JSSet.

(** ** diff/object-diff.ts *)

Module ObjectDiff.
Import JS.

(** [isPrimitive]. *)
Definition isPrimitive (v : value) : bool :=
  strict_equal v VNull || negb (String.eqb (typeof v) "object").

(** [serializeValue]. *)
Definition serializeValue (v : value) : option string := stringify v.

Definition optional_eqb (a b : option string) : bool :=
  match a, b with
  | Some x, Some y => String.eqb x y
  | None, None => true
  | _, _ => false
  end.

(** [{ [name]: entry }]. *)
Definition named (name : string) (entry : value) : value :=
  VObj [(name, entry)].

(** [...(xs.length && { field: serializeValue(xs) })]. *)
Definition spread_if_nonempty (field : string) (xs : list value)
  : list (string * value) :=
  match xs with
  | [] => []
  | _ :: _ => [(field, of_optional (serializeValue (VArr xs)))]
  end.

(** [c !== null], used to filter the recursive results. *)
Definition not_null (c : value) : bool :=
  match c with
  | VNull => false
  | _ => true
  end.

(** The body of [diff], with the recursive calls made through [diff]. *)
Definition diff_body (diff : value -> value -> string -> value)
  (oldValue newValue : value) (name : string) : value :=
  (* Both nullish - no difference *)
  if nullish oldValue && nullish newValue then VNull else
  let oldType := typeof oldValue in
  let newType := typeof newValue in
  (* Type changed *)
  if negb (String.eqb oldType newType) then
    named name
      (VObj [("description",
               VStr ("Type changed from " ++ oldType ++ " to " ++ newType));
             ("oldValue", of_optional (serializeValue oldValue));
             ("newValue", of_optional (serializeValue newValue))])
  (* Property added *)
  else if nullish oldValue && negb (nullish newValue) then
    named name
      (VObj [("description", VStr "Property added");
             ("newValue", of_optional (serializeValue newValue))])
  (* Property removed *)
  else if negb (nullish oldValue) && nullish newValue then
    named name
      (VObj [("description", VStr "Property removed");
             ("oldValue", of_optional (serializeValue oldValue))])
  else
    match oldValue, newValue with
    (* Array comparison (deep using serialization) *)
    | VArr oldArr, VArr newArr =>
        let oldSerialized := JSSet.of_list optional_eqb (map serializeValue oldArr) in
        let newSerialized := JSSet.of_list optional_eqb (map serializeValue newArr) in
        let added :=
          filter (fun x => negb (JSSet.has optional_eqb oldSerialized (serializeValue x)))
            newArr in
        let removed :=
          filter (fun x => negb (JSSet.has optional_eqb newSerialized (serializeValue x)))
            oldArr in
        match added, removed with
        | [], [] => VNull
        | _, _ =>
            named name
              (VObj (("description", VStr "Array modified")
                       :: spread_if_nonempty "removed" removed
                       ++ spread_if_nonempty "added" added)%list)
        end
    | _, _ =>
        (* Object comparison (recursive) *)
        if String.eqb (typeof oldValue) "object"
           && String.eqb (typeof newValue) "object" then
          let oldKeys := JSSet.of_list String.eqb (Object_keys oldValue) in
          let newKeys := JSSet.of_list String.eqb (Object_keys newValue) in
          let added := filter (fun k => negb (JSSet.has String.eqb oldKeys k)) newKeys in
          let removed := filter (fun k => negb (JSSet.has String.eqb newKeys k)) oldKeys in
          let common := filter (fun k => JSSet.has String.eqb newKeys k) oldKeys in
          let changes :=
            filter not_null
              (map (fun k => diff (get oldValue k) (get newValue k) k) common) in
          let differences :=
            ((match added with
             | [] => []
             | _ :: _ =>
                 [VObj [("description", VStr "Properties added");
                        ("properties",
                          VObj (map (fun k => (k, get newValue k)) added))]]
             end)
            ++ (match removed with
                | [] => []
                | _ :: _ =>
                    [VObj [("description", VStr "Properties removed");
                           ("properties", VArr (map VStr removed))]]
                end)
            ++ changes)%list in
          match differences with
          | [] => VNull
          | _ :: _ => named name (VArr differences)
          end
        (* Primitive comparison *)
        else if negb (strict_equal oldValue newValue) then
          named name
            (VObj [("description", VStr "Value changed");
                   ("oldValue", oldValue);
                   ("newValue", newValue)])
        else VNull
    end.

(** [diff] unrolled [fuel] times. *)
Fixpoint diff_fuel (fuel : nat) : value -> value -> string -> value :=
  match fuel with
  | O => fun _ _ _ => VNull
  | S fuel' => diff_body (diff_fuel fuel')
  end.

(** [diff(oldValue, newValue, name)].  Every recursive call descends into a
    property of [oldValue], so unrolling once more than [oldValue] has nodes
    is enough: [diff_unfold] shows that this function satisfies the
    recursive equation of the source. *)
Definition diff (oldValue newValue : value) (name : string) : value :=
  diff_fuel (S (size oldValue)) oldValue newValue name.

End ObjectDiff.

(** ** validators/document.validator.ts *)

Module DocumentValidator.

(** A parameter of type [string | null | undefined]. *)
Inductive input : Type :=
| Null : input
| Undefined : input
| Str (s : string) : input.

(** Inside the validators a string is the list of its characters. *)
Definition chars : Type := list ascii.

Definition in_range (lo hi : nat) (c : ascii) : bool :=
  Nat.leb lo (nat_of_ascii c) && Nat.leb (nat_of_ascii c) hi.

(** The character classes of the patterns. *)
Definition is_digit : ascii -> bool := in_range 48 57.            (* [0-9] *)
Definition is_upper : ascii -> bool := in_range 65 90.            (* [A-Z] *)
Definition is_lower : ascii -> bool := in_range 97 122.
Definition is_upper_or_digit (c : ascii) : bool :=                (* [A-Z0-9] *)
  is_upper c || is_digit c.
Definition is_XYZ : ascii -> bool := in_range 88 90.              (* [XYZ] *)

(** The class [[-\s]]: the hyphen, and tab, line feed, vertical tab, form
    feed, carriage return and space. *)
Definition is_hyphen_or_space (c : ascii) : bool :=
  Nat.eqb (nat_of_ascii c) 45 || in_range 9 13 c || Nat.eqb (nat_of_ascii c) 32.

Definition toUpperCase_char (c : ascii) : ascii :=
  if is_lower c then ascii_of_nat (nat_of_ascii c - 32) else c.

(** [s.replace(/[-\s]/g, '').toUpperCase()] on a string [s]. *)
Definition normal_form (s : chars) : chars :=
  map toUpperCase_char (filter (fun c => negb (is_hyphen_or_space c)) s).

(** What a call does: it returns a value or throws. *)
Inductive exception : Type :=
| TypeError : exception.

Inductive outcome (A : Type) : Type :=
| Returns (a : A) : outcome A
| Throws (e : exception) : outcome A.

Arguments Returns {A} a.
Arguments Throws {A} e.

Definition bind {A B : Type} (c : outcome A) (k : A -> outcome B) : outcome B :=
  match c with
  | Returns a => k a
  | Throws e => Throws e
  end.

Notation "x <- c ;; k" := (bind c (fun x => k))
  (at level 61, c at next level, right associativity).

(** An anchored pattern [^ C1{lo1,hi1} C2{lo2,hi2} ... $]: a sequence of
    character classes, each repeated between [lo] and [hi] times. *)
Definition pattern : Type := list ((ascii -> bool) * nat * nat).

(** [pattern.test(s)]. *)
Fixpoint test (p : pattern) (s : chars) : bool :=
  match p with
  | [] => match s with [] => true | _ :: _ => false end
  | (class, lo, hi) :: rest =>
      existsb
        (fun k => Nat.leb k (List.length s)
                  && forallb class (firstn k s)
                  && test rest (skipn k s))
        (seq lo (hi - lo + 1))
  end.

Definition re_DNI : pattern := [(is_digit, 8, 8); (is_upper, 1, 1)].
Definition re_NIE : pattern := [(is_XYZ, 1, 1); (is_digit, 7, 7); (is_upper, 1, 1)].
Definition re_SSN : pattern := [(is_digit, 12, 12)].
Definition re_IBAN : pattern :=
  [(is_upper, 2, 2); (is_digit, 2, 2); (is_upper_or_digit, 9, 30)].

(** [s.slice(from, to)] and [s.slice(from)]. *)
Definition slice (s : chars) (from to : nat) : chars :=
  firstn (to - from) (skipn from s).

Definition slice_from (s : chars) (from : nat) : chars := skipn from s.

(** [s[i]]; [None] is [undefined]. *)
Definition char_at (s : chars) (i : Z) : option ascii :=
  if (i <? 0)%Z then None else nth_error s (Z.to_nat i).

(** [a === b] on results of [s[i]]. *)
Definition char_strict_equal (a b : option ascii) : bool :=
  match a, b with
  | Some x, Some y => Ascii.eqb x y
  | None, None => true
  | _, _ => false
  end.

Definition digit_value (c : ascii) : Z := Z.of_nat (nat_of_ascii c - 48).

(** The number written by the leading decimal digits of [s], read after
    [acc]. *)
Fixpoint leading_digits (acc : Z) (s : chars) : Z :=
  match s with
  | c :: rest =>
      if is_digit c then leading_digits (acc * 10 + digit_value c) rest else acc
  | [] => acc
  end.

Definition parse_digits (s : chars) : option Z :=
  match s with
  | c :: _ => if is_digit c then Some (leading_digits 0 s) else None
  | [] => None
  end.

Fixpoint skip_spaces (s : chars) : chars :=
  match s with
  | c :: rest =>
      if in_range 9 13 c || Nat.eqb (nat_of_ascii c) 32 then skip_spaces rest else s
  | [] => []
  end.

(** [parseInt(s, 10)]: leading white space, an optional sign, then the
    longest run of digits; [None] is [NaN].  The result is exact below
    2^53, far above the twelve digits read here. *)
Definition parseInt (s : chars) : option Z :=
  match skip_spaces s with
  | c :: rest =>
      if Nat.eqb (nat_of_ascii c) 45 then option_map Z.opp (parse_digits rest)
      else if Nat.eqb (nat_of_ascii c) 43 then parse_digits rest
      else parse_digits (c :: rest)
  | [] => None
  end.

(** DNI letter table: index = remainder, value = letter *)
Definition DNI_LETTERS : chars := list_ascii_of_string "TRWAGMYFPDXBNJZSQVHLCKE".

(** [!value] for a string parameter: [null], [undefined] and the empty
    string are falsy. *)
Definition falsy (value : input) : bool :=
  match value with
  | Null | Undefined => true
  | Str s => String.eqb s ""
  end.

(** [normalize(value)].  Reading [value.replace] throws a [TypeError] when
    [value] is [null] or [undefined]. *)
Definition normalize (value : input) : outcome chars :=
  match value with
  | Str s => Returns (normal_form (list_ascii_of_string s))
  | Null | Undefined => Throws TypeError
  end.

(** In the arithmetic below a [NaN] operand (a [None]) makes the final
    [===] false; the pattern test rules it out beforehand. *)

Definition isValidDNI (dni : input) : outcome bool :=
  if falsy dni then Returns false else
  normalized <- normalize dni ;;
  if negb (test re_DNI normalized) then Returns false else
  match parseInt (slice normalized 0 8) with
  | Some number =>
      let letter := char_at normalized 8 in
      let expectedLetter := char_at DNI_LETTERS (Z.rem number 23) in
      Returns (char_strict_equal letter expectedLetter)
  | None => Returns false
  end.

(** [prefixValue[prefix]] for [{ X: '0', Y: '1', Z: '2' }]. *)
Definition prefixValue (prefix : option ascii) : chars :=
  match prefix with
  | Some c =>
      if Ascii.eqb c "X" then ["0"%char]
      else if Ascii.eqb c "Y" then ["1"%char]
      else if Ascii.eqb c "Z" then ["2"%char]
      else list_ascii_of_string "undefined"
  | None => list_ascii_of_string "undefined"
  end.

Definition isValidNIE (nie : input) : outcome bool :=
  if falsy nie then Returns false else
  normalized <- normalize nie ;;
  if negb (test re_NIE normalized) then Returns false else
  let prefix := char_at normalized 0 in
  let numberStr := (prefixValue prefix ++ slice normalized 1 8)%list in
  match parseInt numberStr with
  | Some number =>
      let letter := char_at normalized 8 in
      Returns (char_strict_equal letter (char_at DNI_LETTERS (Z.rem number 23)))
  | None => Returns false
  end.

Definition isValidSpanishSSN (ssn : input) : outcome bool :=
  if falsy ssn then Returns false else
  normalized <- normalize ssn ;;
  if negb (test re_SSN normalized) then Returns false else
  match parseInt (slice normalized 0 2),
        parseInt (slice normalized 2 10),
        parseInt (slice_from normalized 10) with
  | Some province, Some number, Some checksum =>
      (* Validate province range (01-52) *)
      if (province <? 1)%Z || (52 <? province)%Z then Returns false else
      let multiplier := if (number <? 10000000)%Z then 10000000%Z else 100000000%Z in
      let expected := Z.rem (province * multiplier + number) 97 in
      Returns (Z.eqb checksum expected)
  | _, _, _ => Returns false
  end.

(** [code >= 65 ? (code - 55).toString() : c]. *)
Definition letter_to_number (c : ascii) : chars :=
  let code := nat_of_ascii c in
  if Nat.leb 65 code then list_ascii_of_string (JS.string_of_nat (code - 55))
  else [c].

(** One round of the loop: [remainder = (remainder * 10 + parseInt(digit, 10)) % 97]. *)
Definition mod97_step (remainder : option Z) (digit : ascii) : option Z :=
  match remainder, parseInt [digit] with
  | Some r, Some d => Some (Z.rem (r * 10 + d) 97)
  | _, _ => None
  end.

Definition isValidIBAN (iban : input) : outcome bool :=
  if falsy iban then Returns false else
  normalized <- normalize iban ;;
  if negb (test re_IBAN normalized) then Returns false else
  (* Move country and check digits to end *)
  let rearranged := (slice_from normalized 4 ++ slice normalized 0 4)%list in
  (* Convert letters to numbers (A=10, B=11, ..., Z=35) *)
  let numeric := flat_map letter_to_number rearranged in
  (* MOD-97 on large number (process digit by digit) *)
  let remainder := fold_left mod97_step numeric (Some 0%Z) in
  match remainder with
  | Some r => Returns (Z.eqb r 1)
  | None => Returns false
  end.

End DocumentValidator.

(** ** Vocabulary of the diff properties *)

Module DiffSpec.
Import JS ObjectDiff.

(** Number literals of the examples: a literal that is a safe integer. *)
Abbreviation num z := (VNum (Int z%Z eq_refl)).

(** The JSON text of one array element and of a whole array. *)
Definition element_json (x : value) : string :=
  match stringify x with
  | Some s => s
  | None => "null"
  end.

Definition array_json (xs : list value) : string :=
  "[" ++ join "," (map element_json xs) ++ "]".

(** The double quote, to write JSON texts down. *)
Definition dq : string := String "034"%char "".

(** Two results of [JSON.stringify], each a text or [undefined], are the
    same. *)
Definition same_text (a b : option string) : bool :=
  match a, b with
  | Some x, Some y => if string_dec x y then true else false
  | None, None => true
  | _, _ => false
  end.

(** What [JSON.stringify(v)] evaluates to: a string, or [undefined]. *)
Definition serialized (v : value) : value :=
  match stringify v with
  | Some text => VStr text
  | None => VUndefined
  end.

(** [x] has the same serialization as some element of [ys]. *)
Definition serialized_in (x : value) (ys : list value) : bool :=
  existsb (fun y => same_text (stringify x) (stringify y)) ys.

(** The elements of [xs] whose serialization occurs nowhere in [ys]. *)
Definition only_in (xs ys : list value) : list value :=
  filter (fun x => negb (serialized_in x ys)) xs.

(** A field that is present only when its list is not empty, and then
    holds the serialization of the list. *)
Definition optional_field (field : string) (xs : list value)
  : list (string * value) :=
  match xs with
  | [] => []
  | _ :: _ => [(field, serialized (VArr xs))]
  end.

(** A recursive result that reports a change. *)
Definition reported (result : value) : bool :=
  match result with
  | VNull => false
  | _ => true
  end.

(** [k] is one of the keys [ks]. *)
Definition mem (k : string) (ks : list string) : bool :=
  existsb (String.eqb k) ks.

(** The three kinds of entries of an object comparison. *)
Definition properties_added (props : list (string * value)) : value :=
  VObj [("description", VStr "Properties added"); ("properties", VObj props)].

Definition properties_removed (keys : list string) : value :=
  VObj [("description", VStr "Properties removed");
        ("properties", VArr (map VStr keys))].

Definition value_changed (oldValue newValue : value) : value :=
  VObj [("description", VStr "Value changed");
        ("oldValue", oldValue); ("newValue", newValue)].

(** The entry of the type-changed branch. *)
Definition type_changed (oldValue newValue : value) : value :=
  VObj [("description",
          VStr ("Type changed from " ++ typeof oldValue ++ " to " ++ typeof newValue));
        ("oldValue", serialized oldValue);
        ("newValue", serialized newValue)].

(** An entry that is present only when [xs] is not empty. *)
Definition entry_if_nonempty {A : Type} (xs : list A) (entry : value)
  : list value :=
  match xs with
  | [] => []
  | _ :: _ => [entry]
  end.

(** A value that [typeof] calls an object and that is not [null]. *)
Definition object_like (v : value) : bool :=
  match v with
  | VArr _ | VObj _ => true
  | _ => false
  end.

(** The keys of both operands, as the sets of the source hold them. *)
Definition key_set (v : value) : list string :=
  JSSet.of_list String.eqb (Object_keys v).

Definition object_entries (a b : value) : list value :=
  (entry_if_nonempty
     (filter (fun k => negb (mem k (Object_keys a))) (key_set b))
     (properties_added
        (map (fun k => (k, get b k))
           (filter (fun k => negb (mem k (Object_keys a))) (key_set b))))
   ++ entry_if_nonempty
        (filter (fun k => negb (mem k (Object_keys b))) (key_set a))
        (properties_removed
           (filter (fun k => negb (mem k (Object_keys b))) (key_set a)))
   ++ filter not_null
        (map (fun k => diff (get a k) (get b k) k)
           (filter (fun k => mem k (Object_keys b)) (key_set a))))%list.

(** No [NaN] is met on the way down from [v] through object properties.
    Arrays are not entered: their elements are compared by serialization,
    and [NaN] serializes like [null]. *)
Fixpoint no_NaN_property (v : value) : bool :=
  match v with
  | VNum NaN => false
  | VObj ps => forallb (fun p => no_NaN_property (snd p)) ps
  | _ => true
  end.

End DiffSpec.

(** ** Vocabulary of the validator properties *)

Module ValidatorSpec.
Import DocumentValidator.

(** The number a string of decimal digits writes. *)
Definition decimal (digits : chars) : Z :=
  fold_left (fun acc c => (acc * 10 + digit_value c)%Z) digits 0%Z.

Definition all_digits (s : chars) : Prop := forallb is_digit s = true.

(** [^[0-9]{8}[A-Z]$] with the letter that the table gives for the number
    modulo 23. *)
Definition DNI_valid (normalized : chars) : Prop :=
  exists (digits : chars) (letter : ascii),
    normalized = (digits ++ [letter])%list
    /\ List.length digits = 8
    /\ all_digits digits
    /\ is_upper letter = true
    /\ nth_error DNI_LETTERS (Z.to_nat (decimal digits mod 23)) = Some letter.

(** Twelve digits: province, sequence number, checksum. *)
Definition SSN_valid (normalized : chars) : Prop :=
  exists (province number checksum : chars),
    normalized = (province ++ number ++ checksum)%list
    /\ List.length province = 2
    /\ List.length number = 8
    /\ List.length checksum = 2
    /\ all_digits normalized
    /\ (1 <= decimal province <= 52)%Z
    /\ decimal checksum
       = ((decimal province
           * (if (decimal number <? 10000000)%Z then 10000000 else 100000000)
           + decimal number) mod 97)%Z.

(** The checksum test of [isValidSpanishSSN], on numbers. *)
Definition SSN_check (province number checksum : Z) : bool :=
  if (province <? 1)%Z || (52 <? province)%Z then false
  else
    Z.eqb checksum
      (Z.rem (province
              * (if (number <? 10000000)%Z then 10000000 else 100000000)
              + number) 97).

(** The digit string of an IBAN: the first four characters moved to the
    end, every letter replaced by its number (A=10, ..., Z=35). *)
Definition IBAN_numeric (normalized : chars) : chars :=
  flat_map letter_to_number (skipn 4 normalized ++ firstn 4 normalized)%list.

End ValidatorSpec.

(** ** Vocabulary of the further validator properties *)

Module NIESpec.
Import DocumentValidator ValidatorSpec.

(** The digit that stands for the leading letter of a NIE. *)
Definition prefix_digit (prefix : ascii) : Z :=
  if Ascii.eqb prefix "X" then 0%Z
  else if Ascii.eqb prefix "Y" then 1%Z
  else 2%Z.

(** [^[XYZ][0-9]{7}[A-Z]$] with the letter that the table gives for the
    eight-digit number (prefix digit, then the seven digits) modulo 23. *)
Definition NIE_valid (normalized : chars) : Prop :=
  exists (prefix : ascii) (digits : chars) (letter : ascii),
    normalized = (prefix :: digits ++ [letter])%list
    /\ is_XYZ prefix = true
    /\ List.length digits = 7
    /\ all_digits digits
    /\ is_upper letter = true
    /\ nth_error DNI_LETTERS
         (Z.to_nat ((prefix_digit prefix * 10000000 + decimal digits) mod 23))
       = Some letter.

End NIESpec.

(** ** helpers/deferred.ts *)

Module DeferredPromise.

Section Deferred.
Context {T R : Type}.

(** The state of a promise whose values, of type [T], are no thenables
    (a promise resolved with a thenable follows it instead of being
    fulfilled); [R] is the type of the reasons. *)
Inductive promise : Type :=
| Pending : promise
| Fulfilled (value : T) : promise
| Rejected (reason : R) : promise.

(** The functions [res] and [rej] that the [Promise] constructor hands to
    the executor: they settle a pending promise and leave a settled one
    alone. *)
Definition res (value : T) (p : promise) : promise :=
  match p with
  | Pending => Fulfilled value
  | _ => p
  end.

Definition rej (reason : R) (p : promise) : promise :=
  match p with
  | Pending => Rejected reason
  | _ => p
  end.

(** What one call of [defer] creates: the three variables its closures
    share, read by the getters of the same names, and its promise. *)
Record deferred : Type := {
  isSettled : bool;
  isResolved : bool;
  isRejected : bool;
  promise_state : promise
}.

(** [defer()]. *)
Definition defer : deferred :=
  {| isSettled := false;
     isResolved := false;
     isRejected := false;
     promise_state := Pending |}.

(** [deferred.resolve(value)]. *)
Definition resolve (value : T) (d : deferred) : deferred :=
  if negb (isSettled d) then
    {| isSettled := true;
       isResolved := true;
       isRejected := isRejected d;
       promise_state := res value (promise_state d) |}
  else d.

(** [deferred.reject(reason)]. *)
Definition reject (reason : R) (d : deferred) : deferred :=
  if negb (isSettled d) then
    {| isSettled := true;
       isResolved := isResolved d;
       isRejected := true;
       promise_state := rej reason (promise_state d) |}
  else d.

(** A call made on a deferred, and a sequence of calls made in order. *)
Inductive call : Type :=
| Resolve (value : T) : call
| Reject (reason : R) : call.

Definition perform (d : deferred) (c : call) : deferred :=
  match c with
  | Resolve value => resolve value d
  | Reject reason => reject reason d
  end.

Definition perform_all (calls : list call) (d : deferred) : deferred :=
  fold_left perform calls d.

(** What holds of a deferred however it was used. *)
Definition consistent (d : deferred) : Prop :=
  isSettled d = (isResolved d || isRejected d)
  /\ isResolved d && isRejected d = false
  /\ match promise_state d with
     | Pending => isSettled d = false
     | Fulfilled _ => isResolved d = true
     | Rejected _ => isRejected d = true
     end.

End Deferred.

Section WithTimeout.
Context {T R : Type}.

(** The reasons include the errors that [new Error(message)] makes. *)
Variable Error : string -> R.

(** What one call of [deferWithTimeout] creates.  [inner] is the deferred
    of [defer<T>()] that the closures hold; the timer is pending until it
    fires or is cleared.  The object returned is
    [{ ...deferred, resolve, reject, clearTimeout }]: the spread reads the
    three getters of [deferred] once and stores what they return as plain
    properties, here [own_isSettled], [own_isResolved] and
    [own_isRejected]; its [promise] is the promise of [inner]. *)
Record timed : Type := {
  inner : @deferred T R;
  timer_pending : bool;
  timeoutMessage : string;
  own_isSettled : bool;
  own_isResolved : bool;
  own_isRejected : bool
}.

Definition timed_promise (t : timed) : @promise T R :=
  promise_state (inner t).

(** [deferWithTimeout(timeoutMs, timeoutMessage)]; when the timer fires
    is left to the events below. *)
Definition deferWithTimeout (message : string) : timed :=
  let deferred := defer in
  {| inner := deferred;
     timer_pending := true;
     timeoutMessage := message;
     own_isSettled := isSettled deferred;
     own_isResolved := isResolved deferred;
     own_isRejected := isRejected deferred |}.

Definition with_inner (t : timed) (pending : bool) (d : @deferred T R)
  : timed :=
  {| inner := d;
     timer_pending := pending;
     timeoutMessage := timeoutMessage t;
     own_isSettled := own_isSettled t;
     own_isResolved := own_isResolved t;
     own_isRejected := own_isRejected t |}.

(** What can happen to it: a call of one of its three functions, or the
    timer running out, which does something only while it is pending. *)
Inductive event : Type :=
| CallResolve (value : T) : event
| CallReject (reason : R) : event
| CallClearTimeout : event
| TimerFires : event.

Definition handle (t : timed) (e : event) : timed :=
  match e with
  | CallResolve value => with_inner t false (resolve value (inner t))
  | CallReject reason => with_inner t false (reject reason (inner t))
  | CallClearTimeout => with_inner t false (inner t)
  | TimerFires =>
      if timer_pending t
      then with_inner t false (reject (Error (timeoutMessage t)) (inner t))
      else t
  end.

Definition handle_all (events : list event) (t : timed) : timed :=
  fold_left handle events t.

(** The calls of [resolve] and [reject] among the events. *)
Definition explicit_calls (events : list event) : list (@call T R) :=
  flat_map (fun e => match e with
                     | CallResolve value => [Resolve value]
                     | CallReject reason => [Reject reason]
                     | _ => []
                     end) events.

End WithTimeout.

Section Delayed.
Context {T R : Type}.

(** What one call of [deferDelayed] creates: the deferred of [defer<T>()],
    which is also what it returns, the value that the timer will resolve
    it with, and whether the timer has still to fire. *)
Record delayed : Type := {
  delayed_deferred : @deferred T R;
  delayed_value : T;
  delay_pending : bool
}.

(** [deferDelayed(value, delayMs)]; when the delay is over is left to the
    events below. *)
Definition deferDelayed (value : T) : delayed :=
  {| delayed_deferred := defer;
     delayed_value := value;
     delay_pending := true |}.

(** A call of [resolve] or [reject] on the deferred returned, or the delay
    being over, which happens once. *)
Inductive delayed_event : Type :=
| Called (c : @call T R) : delayed_event
| DelayOver : delayed_event.

Definition delayed_handle (t : delayed) (e : delayed_event) : delayed :=
  match e with
  | Called c =>
      {| delayed_deferred := perform (delayed_deferred t) c;
         delayed_value := delayed_value t;
         delay_pending := delay_pending t |}
  | DelayOver =>
      if delay_pending t
      then {| delayed_deferred :=
                resolve (delayed_value t) (delayed_deferred t);
              delayed_value := delayed_value t;
              delay_pending := false |}
      else t
  end.

Definition delayed_handle_all (events : list delayed_event) (t : delayed)
  : delayed :=
  fold_left delayed_handle events t.

End Delayed.

Arguments promise : clear implicits.
Arguments deferred : clear implicits.
Arguments call : clear implicits.
Arguments timed : clear implicits.
Arguments event : clear implicits.
Arguments delayed : clear implicits.
Arguments delayed_event : clear implicits.

End DeferredPromise.

(** * Properties *)

(** ** Facts about insertion-ordered sets *)

Module JSSetFacts.
Import JSSet.

Section WithEquality.
Context {A : Type} (eqb : A -> A -> bool).
Hypothesis eqb_eq : forall x y, eqb x y = true <-> x = y.

Lemma has_In (s : list A) (x : A) : has eqb s x = true <-> In x s.
Proof.
  unfold has. rewrite existsb_exists. split.
  - intros [y [Hy E]]. apply eqb_eq in E. now subst.
  - intros H. exists x. split; [assumption | now apply eqb_eq].
Qed.

Lemma has_false_In (s : list A) (x : A) : has eqb s x = false <-> ~ In x s.
Proof.
  rewrite <- has_In. destruct (has eqb s x); split; intro H;
    try reflexivity; try discriminate; congruence.
Qed.

Lemma In_add (s : list A) (x y : A) : In x (add eqb s y) <-> In x s \/ x = y.
Proof.
  unfold add. destruct (has eqb s y) eqn:E.
  - apply has_In in E. split; [now left | intros [H | ->]; assumption].
  - rewrite in_app_iff. simpl. intuition congruence.
Qed.

Lemma In_fold_add (l s : list A) (x : A) :
  In x (fold_left (add eqb) l s) <-> In x s \/ In x l.
Proof.
  revert s. induction l as [|y l IH]; intros s; simpl.
  - tauto.
  - rewrite IH, In_add. intuition congruence.
Qed.

Lemma In_of_list (l : list A) (x : A) : In x (of_list eqb l) <-> In x l.
Proof. unfold of_list. rewrite In_fold_add. simpl. tauto. Qed.

Lemma has_of_list (l : list A) (x : A) :
  has eqb (of_list eqb l) x = existsb (eqb x) l.
Proof.
  apply eq_true_iff_eq. rewrite has_In, In_of_list.
  change (existsb (eqb x) l) with (has eqb l x). now rewrite has_In.
Qed.

Lemma fold_add_NoDup (l s : list A) :
  NoDup (s ++ l) -> fold_left (add eqb) l s = (s ++ l)%list.
Proof.
  revert s. induction l as [|y l IH]; intros s H; simpl.
  - now rewrite app_nil_r.
  - assert (Hy : has eqb s y = false).
    { apply has_false_In. intro Hin. apply NoDup_remove_2 in H.
      apply H. apply in_or_app. now left. }
    unfold add at 2. rewrite Hy.
    rewrite IH; rewrite <- app_assoc; simpl; [reflexivity | assumption].
Qed.

Lemma of_list_NoDup (l : list A) : NoDup l -> of_list eqb l = l.
Proof. intros H. unfold of_list. now rewrite fold_add_NoDup. Qed.
End WithEquality.

End JSSetFacts.

(** ** The recursive equation of [diff] *)

Module DiffFacts.
Import JS ObjectDiff.

Lemma optional_eqb_eq (a b : option string) : optional_eqb a b = true <-> a = b.
Proof.
  destruct a as [x|], b as [y|]; simpl; try (split; congruence).
  rewrite String.eqb_eq. split; congruence.
Qed.

(** A safe integer is determined by its value. *)
Lemma Int_eq (z z' : Z) (safe : is_safe_integer z = true)
  (safe' : is_safe_integer z' = true) :
  z = z' -> Int z safe = Int z' safe'.
Proof.
  intros E. subst z'. f_equal. apply UIP_dec, Bool.bool_dec.
Qed.

Lemma size_nth (xs : list value) (i : nat) :
  size (nth i xs VUndefined) <= list_sum (map size xs).
Proof.
  revert i. induction xs as [|x xs IH]; intros [|i]; simpl; try lia.
  specialize (IH i). lia.
Qed.

Lemma size_assoc (ps : list (string * value)) (k : string) (x : value) :
  assoc k ps = Some x -> size x <= list_sum (map (fun p => size (snd p)) ps).
Proof.
  induction ps as [|[k' v] ps IH]; simpl; [discriminate|].
  destruct (String.eqb k' k).
  - intros [= ->]. lia.
  - intros H. apply IH in H. lia.
Qed.

(** A property of an array or an object is smaller than its owner. *)
Lemma size_get (v : value) (k : string) :
  typeof v = "object" -> nullish v = false -> size (get v k) < size v.
Proof.
  destruct v; simpl; try discriminate; intros _ _.
  - destruct (find _ _); simpl; [|lia].
    pose proof (size_nth elements n). lia.
  - destruct (assoc k properties) eqn:E; simpl; [|lia].
    apply size_assoc in E. lia.
Qed.

(** [diff_body] only calls its first argument on properties of [oldValue]. *)
Lemma diff_body_ext (d1 d2 : value -> value -> string -> value)
  (oldValue newValue : value) (name : string) :
  (forall o n k, size o < size oldValue -> d1 o n k = d2 o n k) ->
  diff_body d1 oldValue newValue name = diff_body d2 oldValue newValue name.
Proof.
  intros H.
  assert (E : typeof oldValue = "object" -> nullish oldValue = false ->
              map (fun k => d1 (get oldValue k) (get newValue k) k)
                (filter (fun k => JSSet.has String.eqb
                           (JSSet.of_list String.eqb (Object_keys newValue)) k)
                   (JSSet.of_list String.eqb (Object_keys oldValue)))
              = map (fun k => d2 (get oldValue k) (get newValue k) k)
                  (filter (fun k => JSSet.has String.eqb
                             (JSSet.of_list String.eqb (Object_keys newValue)) k)
                     (JSSet.of_list String.eqb (Object_keys oldValue)))).
  { intros Ht Hn. apply map_ext. intros k. apply H. now apply size_get. }
  unfold diff_body.
  destruct oldValue; try reflexivity; destruct newValue; try reflexivity;
    specialize (E eq_refl eq_refl); simpl in E |- *; rewrite E; reflexivity.
Qed.

Lemma diff_fuel_stable (f1 f2 : nat) (oldValue newValue : value) (name : string) :
  size oldValue < f1 -> size oldValue < f2 ->
  diff_fuel f1 oldValue newValue name = diff_fuel f2 oldValue newValue name.
Proof.
  revert f2 oldValue newValue name.
  induction f1 as [|f1 IH]; intros [|f2] o n k H1 H2; try lia.
  simpl. apply diff_body_ext. intros o' n' k' Hlt.
  apply IH; lia.
Qed.

(** [diff] satisfies the recursive definition of the source. *)
Lemma diff_unfold (oldValue newValue : value) (name : string) :
  diff oldValue newValue name = diff_body diff oldValue newValue name.
Proof.
  unfold diff at 1. simpl. apply diff_body_ext. intros o n k Hlt.
  unfold diff. apply diff_fuel_stable; lia.
Qed.

End DiffFacts.

(** ** The branches of [diff] *)

Module DiffBranches.
Import JS ObjectDiff DiffSpec DiffFacts.

Lemma filter_negb_nil {A : Type} (p : A -> bool) (l : list A) :
  filter (fun x => negb (p x)) l = [] <-> forallb p l = true.
Proof.
  induction l as [|x l IH]; simpl; [tauto|].
  destruct (p x); simpl.
  - exact IH.
  - split; discriminate.
Qed.

Lemma filter_nil_iff {A : Type} (p : A -> bool) (l : list A) :
  filter p l = [] <-> forall x, In x l -> p x = false.
Proof.
  induction l as [|x l IH]; simpl.
  - split; [intros _ y [] | reflexivity].
  - destruct (p x) eqn:E; split.
    + discriminate.
    + intros H. specialize (H x (or_introl eq_refl)). congruence.
    + intros H y [<-|Hy]; [assumption | now apply IH].
    + intros H. apply IH. intros y Hy. apply H. now right.
Qed.

Lemma same_text_eq (a b : option string) : same_text a b = true <-> a = b.
Proof.
  destruct a as [x|], b as [y|]; simpl; try (split; congruence).
  destruct (string_dec x y); split; congruence.
Qed.

Lemma same_text_optional_eqb (a b : option string) :
  same_text a b = optional_eqb a b.
Proof.
  apply eq_true_iff_eq. now rewrite same_text_eq, optional_eqb_eq.
Qed.

Lemma has_serialized (x : value) (ys : list value) :
  JSSet.has optional_eqb (JSSet.of_list optional_eqb (map serializeValue ys))
    (serializeValue x) = serialized_in x ys.
Proof.
  rewrite (JSSetFacts.has_of_list optional_eqb optional_eqb_eq).
  unfold serialized_in. induction ys as [|y ys IH]; simpl; [reflexivity|].
  now rewrite IH, same_text_optional_eqb.
Qed.

Lemma has_key (k : string) (ks : list string) :
  JSSet.has String.eqb (JSSet.of_list String.eqb ks) k = mem k ks.
Proof. apply (JSSetFacts.has_of_list String.eqb String.eqb_eq). Qed.

Lemma mem_In (k : string) (ks : list string) : mem k ks = true <-> In k ks.
Proof. apply (JSSetFacts.has_In String.eqb String.eqb_eq). Qed.

Lemma stringify_array (xs : list value) :
  stringify (VArr xs) = Some (array_json xs).
Proof. reflexivity. Qed.

Lemma isPrimitive_object_like (v : value) :
  isPrimitive v = negb (object_like v).
Proof. destruct v; reflexivity. Qed.

Lemma spread_optional_field (field : string) (xs : list value) :
  spread_if_nonempty field xs = optional_field field xs.
Proof. destruct xs; reflexivity. Qed.

(** Two arrays. *)
Lemma diff_arrays (xs ys : list value) (name : string) :
  diff (VArr xs) (VArr ys) name =
    match only_in ys xs, only_in xs ys with
    | [], [] => VNull
    | added, removed =>
        named name
          (VObj (("description", VStr "Array modified")
                   :: optional_field "removed" removed
                   ++ optional_field "added" added)%list)
    end.
Proof.
  rewrite diff_unfold. unfold diff_body, only_in. simpl.
  rewrite (filter_ext _ (fun x => negb (serialized_in x xs)))
    by (intros x; now rewrite has_serialized).
  rewrite (filter_ext (fun x => negb (JSSet.has _ _ (serializeValue x)))
             (fun x => negb (serialized_in x ys)))
    by (intros x; now rewrite has_serialized).
  destruct (filter _ ys); destruct (filter _ xs); reflexivity.
Qed.

(** Two objects, at least one of which is not an array. *)
Lemma diff_objects (a b : value) (name : string) :
  object_like a = true -> object_like b = true ->
  isArray a && isArray b = false ->
  diff a b name =
    match object_entries a b with
    | [] => VNull
    | _ :: _ => named name (VArr (object_entries a b))
    end.
Proof.
  intros Ha Hb Hab. rewrite diff_unfold. unfold object_entries, key_set.
  unfold diff_body.
  destruct a; try discriminate; destruct b; try discriminate;
    cbn [nullish typeof andb negb String.eqb Ascii.eqb Bool.eqb];
    rewrite (filter_ext (fun k => negb (JSSet.has String.eqb _ k))
               (fun k => negb (mem k (Object_keys _))))
      by (intros k; now rewrite has_key);
    match goal with
    | |- context [filter (fun k => negb (JSSet.has String.eqb
                     (JSSet.of_list String.eqb (Object_keys ?v)) k)) _] =>
        rewrite (filter_ext (fun k => negb (JSSet.has String.eqb
                     (JSSet.of_list String.eqb (Object_keys v)) k))
                   (fun k => negb (mem k (Object_keys v))))
          by (intros k; now rewrite has_key)
    end;
    match goal with
    | |- context [filter (fun k => JSSet.has String.eqb
                     (JSSet.of_list String.eqb (Object_keys ?v)) k) _] =>
        rewrite (filter_ext (fun k => JSSet.has String.eqb
                     (JSSet.of_list String.eqb (Object_keys v)) k)
                   (fun k => mem k (Object_keys v)))
          by (intros k; now rewrite has_key)
    end;
    reflexivity.
Qed.

(** Two booleans, two numbers or two strings. *)
Lemma diff_primitives (a b : value) (name : string) :
  object_like a = false -> nullish a = false ->
  typeof a = typeof b ->
  diff a b name =
    if strict_equal a b then VNull else named name (value_changed a b).
Proof.
  intros Ha Hn Ht. rewrite diff_unfold.
  destruct a; try discriminate; destruct b; try discriminate;
    unfold diff_body; simpl;
    match goal with |- context [negb ?c] => destruct c end; reflexivity.
Qed.

Lemma strict_equal_sym (a b : value) : strict_equal a b = strict_equal b a.
Proof.
  destruct a, b; simpl; try reflexivity.
  - now destruct b, b0.
  - destruct x, x0; simpl; try reflexivity.
    + now destruct negative, negative0.
    + apply Z.eqb_sym.
  - apply String.eqb_sym.
Qed.

Lemma app_nil_iff {A : Type} (l l' : list A) :
  (l ++ l')%list = [] <-> l = [] /\ l' = [].
Proof.
  split; [apply app_eq_nil | intros [-> ->]; reflexivity].
Qed.

Lemma entry_if_nonempty_nil {A : Type} (xs : list A) (entry : value) :
  entry_if_nonempty xs entry = [] <-> xs = [].
Proof. destruct xs; simpl; split; congruence. Qed.

Lemma In_key_set (v : value) (k : string) :
  In k (key_set v) <-> In k (Object_keys v).
Proof. apply (JSSetFacts.In_of_list String.eqb String.eqb_eq). Qed.

(** An object comparison reports nothing exactly when both operands have
    the same keys and no common key reports a change. *)
Lemma object_entries_nil (a b : value) :
  object_entries a b = [] <->
  (forall k, In k (Object_keys b) -> In k (Object_keys a))
  /\ (forall k, In k (Object_keys a) -> In k (Object_keys b))
  /\ (forall k, In k (Object_keys a) -> In k (Object_keys b) ->
        diff (get a k) (get b k) k = VNull).
Proof.
  unfold object_entries.
  rewrite !app_nil_iff, !entry_if_nonempty_nil, !filter_nil_iff.
  split.
  - intros (Hadd & Hrem & Hch). repeat split.
    + intros k Hk. apply mem_In. apply In_key_set in Hk.
      specialize (Hadd k Hk). now destruct (mem k (Object_keys a)).
    + intros k Hk. apply mem_In. apply In_key_set in Hk.
      specialize (Hrem k Hk). now destruct (mem k (Object_keys b)).
    + intros k Hka Hkb.
      assert (HF : not_null (diff (get a k) (get b k) k) = false).
      { apply Hch. apply in_map_iff. exists k. split; [reflexivity|].
        apply filter_In. split; [now apply In_key_set | now apply mem_In]. }
      destruct (diff (get a k) (get b k) k); try reflexivity; discriminate HF.
  - intros (Hba & Hab & Hch). repeat split.
    + intros k Hk. apply In_key_set, Hba, mem_In in Hk. now rewrite Hk.
    + intros k Hk. apply In_key_set, Hab, mem_In in Hk. now rewrite Hk.
    + intros x Hx. apply in_map_iff in Hx. destruct Hx as (k & <- & Hk).
      apply filter_In in Hk. destruct Hk as [Hka Hkb].
      rewrite Hch; [reflexivity | now apply In_key_set | now apply mem_In].
Qed.

Lemma only_in_nil (xs ys : list value) :
  only_in xs ys = [] <-> forallb (fun x => serialized_in x ys) xs = true.
Proof. apply filter_negb_nil. Qed.

(** Two arrays report nothing exactly when neither has an element of its
    own. *)
Lemma diff_arrays_null (xs ys : list value) (name : string) :
  diff (VArr xs) (VArr ys) name = VNull <->
  only_in ys xs = [] /\ only_in xs ys = [].
Proof.
  rewrite diff_arrays.
  destruct (only_in ys xs), (only_in xs ys); split;
    try discriminate; try (intros [? ?]; discriminate); auto.
Qed.

Lemma diff_objects_null (a b : value) (name : string) :
  object_like a = true -> object_like b = true ->
  isArray a && isArray b = false ->
  diff a b name = VNull <-> object_entries a b = [].
Proof.
  intros Ha Hb Hab. rewrite diff_objects by assumption.
  destruct (object_entries a b); split; try discriminate; auto.
Qed.

End DiffBranches.

(** ** Properties of [diff] *)

Module DiffProperties.
Import JS ObjectDiff DiffSpec DiffFacts DiffBranches.

Lemma serialized_in_self (x : value) (xs : list value) :
  In x xs -> serialized_in x xs = true.
Proof.
  intros H. unfold serialized_in. apply existsb_exists.
  exists x. split; [assumption | now apply same_text_eq].
Qed.

Lemma only_in_self (xs : list value) : only_in xs xs = [].
Proof.
  apply only_in_nil, forallb_forall. intros x Hx. now apply serialized_in_self.
Qed.

Lemma no_NaN_property_get (ps : list (string * value)) (k : string) :
  no_NaN_property (VObj ps) = true -> no_NaN_property (get (VObj ps) k) = true.
Proof.
  simpl. induction ps as [|[k' v] ps IH]; simpl; [reflexivity|].
  intros H. apply andb_true_iff in H. destruct H as [Hv Hps].
  destruct (String.eqb k' k); [assumption | now apply IH].
Qed.

Lemma strict_equal_refl (x : value) :
  object_like x = false -> no_NaN_property x = true -> strict_equal x x = true.
Proof.
  destruct x; simpl; try reflexivity; try discriminate.
  - now destruct b.
  - destruct x; simpl; try discriminate.
    + now destruct negative.
    + intros _ _. apply Z.eqb_refl.
  - intros _ _. apply String.eqb_refl.
Qed.

Lemma diff_self_bounded (n : nat) :
  forall (x : value) (name : string),
    size x < n -> no_NaN_property x = true -> diff x x name = VNull.
Proof.
  induction n as [|n IH]; intros x name Hsize Hnan; [lia|].
  destruct x.
  - now rewrite diff_unfold.
  - now rewrite diff_unfold.
  - rewrite diff_primitives by reflexivity. now rewrite strict_equal_refl.
  - rewrite diff_primitives by reflexivity. now rewrite strict_equal_refl.
  - rewrite diff_primitives by reflexivity. now rewrite strict_equal_refl.
  - apply diff_arrays_null. split; apply only_in_self.
  - apply diff_objects_null; try reflexivity.
    apply object_entries_nil. repeat split; try tauto.
    intros k _ _. apply IH.
    + assert (size (get (VObj properties) k) < size (VObj properties))
        by now apply size_get.
      lia.
    + now apply no_NaN_property_get.
Qed.

(** C1, as stated, fails at [NaN]: [NaN !== NaN], so comparing [NaN] with
    itself reports a changed value. *)
Lemma C1_diff_NaN_with_itself :
  diff (VNum NaN) (VNum NaN) "n" <> VNull.
Proof. rewrite diff_unfold. discriminate. Qed.

(** C1 (amended): [diff(x, x, n)] is [null] for every value [x] in which no
    [NaN] is reached from the top through object properties; two values with
    the same structure, keys in the same order, are such a pair. *)
Theorem C1_diff_reflexive (x : value) (name : string) :
  no_NaN_property x = true -> diff x x name = VNull.
Proof. apply (diff_self_bounded (S (size x))). lia. Qed.

Lemma C1_diff_reflexive_witness :
  diff (VObj [("tags", VArr [VNum NaN; VUndefined]); ("name", VStr "John");
              ("inner", VObj [("age", num 30)])])
       (VObj [("tags", VArr [VNum NaN; VUndefined]); ("name", VStr "John");
              ("inner", VObj [("age", num 30)])]) "user"
  = VNull.
Proof. apply C1_diff_reflexive. reflexivity. Defined.

(** Objects that sit inside arrays are compared by their serialization, so
    the order of their keys matters there. *)
Example diff_key_order_inside_array :
  diff (VArr [VObj [("a", num 1); ("b", num 2)]])
       (VArr [VObj [("b", num 2); ("a", num 1)]]) "list"
  = named "list"
      (VObj [("description", VStr "Array modified");
             ("removed", VStr (array_json [VObj [("a", num 1); ("b", num 2)]]));
             ("added", VStr (array_json [VObj [("b", num 2); ("a", num 1)]]))]).
Proof. reflexivity. Qed.

(** C2: the code nests the change of [name] under its key: the list holds
    the recursive result [{ name: { description: 'Value changed', ... } }],
    not the bare record of the documented example. *)
Theorem C2_diff_user_example :
  let oldUser := VObj [("name", VStr "John"); ("age", num 30)] in
  let newUser := VObj [("name", VStr "Jane"); ("age", num 30)] in
  diff oldUser newUser "user"
    = named "user"
        (VArr [named "name" (value_changed (VStr "John") (VStr "Jane"))])
  /\ diff oldUser newUser "user"
    <> named "user" (VArr [value_changed (VStr "John") (VStr "Jane")]).
Proof. split; [reflexivity | discriminate]. Qed.

(** C3: two arrays are compared as sets of serialized elements.  Nothing is
    reported when every element of each array has its serialization in the
    other one; otherwise the result is [{ [name]: entry }] where the one
    entry lists, serialized, the elements found only in the old array
    ([removed]) and only in the new one ([added]), each field present only
    when its list is not empty. *)
Theorem C3_diff_arrays (xs ys : list value) (name : string) :
  diff (VArr xs) (VArr ys) name =
    (if forallb (fun x => serialized_in x ys) xs
        && forallb (fun y => serialized_in y xs) ys
     then VNull
     else VObj [(name,
                 VObj (("description", VStr "Array modified")
                         :: optional_field "removed" (only_in xs ys)
                         ++ optional_field "added" (only_in ys xs))%list)])
  /\ diff (VArr [num 1; num 2; num 3]) (VArr [num 2; num 3; num 4]) "nums"
     = VObj [("nums",
              VObj [("description", VStr "Array modified");
                    ("removed", VStr "[1]"); ("added", VStr "[4]")])]
  /\ diff (VArr [VStr "a"; num 1; num 1]) (VArr [num 1; VStr "a"; VStr "a"]) "l"
     = VNull
  /\ diff (VArr [VStr "a"; VObj [("k", VNull); ("u", VUndefined)]; num (-7)])
          (VArr [VStr "a"]) "l"
     = VObj [("l",
              VObj [("description", VStr "Array modified");
                    ("removed",
                      VStr ("[{" ++ dq ++ "k" ++ dq ++ ":null},-7]"))])]
  /\ diff (VArr []) (VArr [VStr "a"; VUndefined; VBool true]) "l"
     = VObj [("l",
              VObj [("description", VStr "Array modified");
                    ("added", VStr ("[" ++ dq ++ "a" ++ dq ++ ",null,true]"))])].
Proof.
  split; [|repeat split].
  rewrite diff_arrays.
  destruct (forallb (fun x => serialized_in x ys) xs) eqn:Ex;
    destruct (forallb (fun y => serialized_in y xs) ys) eqn:Ey; simpl.
  - apply only_in_nil in Ex, Ey. now rewrite Ex, Ey.
  - destruct (only_in ys xs) eqn:E; [|reflexivity].
    apply only_in_nil in E. congruence.
  - destruct (only_in xs ys) eqn:E.
    + apply only_in_nil in E. congruence.
    + now destruct (only_in ys xs).
  - destruct (only_in xs ys) eqn:E.
    + apply only_in_nil in E. congruence.
    + now destruct (only_in ys xs).
Qed.

Lemma filter_map_fst {A B : Type} (f : A -> bool) (l : list (A * B)) :
  filter f (map fst l) = map fst (filter (fun p => f (fst p)) l).
Proof.
  induction l as [|p l IH]; simpl; [reflexivity|].
  destruct (f (fst p)); simpl; now rewrite IH.
Qed.

Lemma assoc_NoDup (ps : list (string * value)) (p : string * value) :
  NoDup (map fst ps) -> In p ps -> assoc (fst p) ps = Some (snd p).
Proof.
  induction ps as [|[k v] ps IH]; simpl; [tauto|].
  intros Hnd [<-|Hin]; simpl.
  - now rewrite String.eqb_refl.
  - inversion Hnd as [|? ? Hk Hnd']; subst.
    destruct (String.eqb_spec k (fst p)) as [->|_].
    + exfalso. apply Hk. now apply in_map.
    + now apply IH.
Qed.

Lemma entry_if_nonempty_map {A B : Type} (f : A -> B) (l : list A) (e : value) :
  entry_if_nonempty (map f l) e = entry_if_nonempty l e.
Proof. now destruct l. Qed.

(** C4: two objects that are not arrays.  The list of entries is, in this
    order: one properties-added entry holding the properties of the new
    object whose key the old one lacks, with their raw values (only when
    there are some); one properties-removed entry holding the keys of the
    old object that the new one lacks (only when there are some); the
    non-null results of [diff] on every common key, in the key order of the
    old object.  An empty list gives [null], any other [{ [name]: list }]. *)
Theorem C4_diff_objects :
  (forall (oldProps newProps : list (string * value)) (name : string),
      NoDup (map fst oldProps) -> NoDup (map fst newProps) ->
      let oldObj := VObj oldProps in
      let newObj := VObj newProps in
      let added :=
        filter (fun p => negb (mem (fst p) (map fst oldProps))) newProps in
      let removed :=
        filter (fun k => negb (mem k (map fst newProps))) (map fst oldProps) in
      let common :=
        filter (fun k => mem k (map fst newProps)) (map fst oldProps) in
      let entries :=
        (entry_if_nonempty added (properties_added added)
         ++ entry_if_nonempty removed (properties_removed removed)
         ++ filter reported
              (map (fun k => diff (get oldObj k) (get newObj k) k) common))%list in
      diff oldObj newObj name =
        match entries with
        | [] => VNull
        | _ :: _ => VObj [(name, VArr entries)]
        end)
  /\ diff (VObj [("a", num 1)]) (VObj [("a", num 1); ("b", num 2)]) "obj"
     = VObj [("obj",
              VArr [VObj [("description", VStr "Properties added");
                          ("properties", VObj [("b", num 2)])]])]
  /\ diff (VObj [("a", num 1); ("gone", VNull); ("c", VStr "x")])
          (VObj [("c", VStr "y"); ("a", num 1); ("b", num 2)]) "obj"
     = VObj [("obj",
              VArr [VObj [("description", VStr "Properties added");
                          ("properties", VObj [("b", num 2)])];
                    VObj [("description", VStr "Properties removed");
                          ("properties", VArr [VStr "gone"])];
                    VObj [("c",
                           VObj [("description", VStr "Value changed");
                                 ("oldValue", VStr "x");
                                 ("newValue", VStr "y")])]])]
  /\ diff (VObj [("a", num 1); ("b", VStr "x")])
          (VObj [("b", VStr "x"); ("a", num 1)]) "obj"
     = VNull.
Proof.
  split; [|repeat split].
  intros oldProps newProps name Hold Hnew oldObj newObj added removed common entries.
  unfold oldObj, newObj. rewrite diff_objects by reflexivity.
  assert (E : object_entries (VObj oldProps) (VObj newProps) = entries).
  { unfold object_entries, key_set, entries, added, removed, common.
    cbn [Object_keys].
    rewrite !(JSSetFacts.of_list_NoDup String.eqb String.eqb_eq) by assumption.
    rewrite (filter_map_fst (fun k => negb (mem k (map fst oldProps))) newProps).
    rewrite entry_if_nonempty_map, map_map.
    replace (map (fun p => (fst p, get (VObj newProps) (fst p)))
               (filter (fun p => negb (mem (fst p) (map fst oldProps))) newProps))
      with (filter (fun p => negb (mem (fst p) (map fst oldProps))) newProps);
      [reflexivity|].
    rewrite <- (map_id (filter _ newProps)) at 1.
    apply map_ext_in. intros [k v] Hin. apply filter_In in Hin.
    destruct Hin as [Hin _]. simpl.
    pose proof (assoc_NoDup newProps (k, v) Hnew Hin) as Ek.
    simpl in Ek. now rewrite Ek. }
  now rewrite E.
Qed.

Lemma C4_diff_objects_witness :
  diff (VObj [("a", num 1); ("gone", VNull); ("c", VStr "x")])
       (VObj [("c", VStr "y"); ("a", num 1); ("b", num 2)]) "obj"
  = VObj [("obj",
           VArr [VObj [("description", VStr "Properties added");
                       ("properties", VObj [("b", num 2)])];
                 VObj [("description", VStr "Properties removed");
                       ("properties", VArr [VStr "gone"])];
                 VObj [("c",
                        VObj [("description", VStr "Value changed");
                              ("oldValue", VStr "x");
                              ("newValue", VStr "y")])]])].
Proof.
  rewrite (proj1 C4_diff_objects
             [("a", num 1); ("gone", VNull); ("c", VStr "x")]
             [("c", VStr "y"); ("a", num 1); ("b", num 2)] "obj").
  - reflexivity.
  - repeat constructor; simpl; intuition discriminate.
  - repeat constructor; simpl; intuition discriminate.
Defined.

(** C5: when the [typeof] of the two operands differ and they are not both
    nullish, the result is [{ [name]: entry }] with one type-changed entry
    that holds both serializations, also when one operand is nullish, where
    the property-added and property-removed branches would apply otherwise.
    [null] against an object has equal [typeof] and falls to those
    branches. *)
Theorem C5_type_changed :
  (forall (a b : value) (name : string),
      typeof a <> typeof b -> nullish a && nullish b = false ->
      diff a b name = VObj [(name, type_changed a b)])
  /\ diff (VStr "a") (num 1) "n"
     = VObj [("n",
              VObj [("description", VStr "Type changed from string to number");
                    ("oldValue", VStr (dq ++ "a" ++ dq));
                    ("newValue", VStr "1")])]
  /\ diff VUndefined (num 5) "n"
     = VObj [("n",
              VObj [("description",
                      VStr "Type changed from undefined to number");
                    ("oldValue", VUndefined);
                    ("newValue", VStr "5")])]
  /\ diff (VArr [VStr "x"; VNull; VNum NaN; VObj [("k", VArr [])]])
          (VBool true) "n"
     = VObj [("n",
              VObj [("description", VStr "Type changed from object to boolean");
                    ("oldValue",
                      VStr ("[" ++ dq ++ "x" ++ dq ++ ",null,null,{"
                            ++ dq ++ "k" ++ dq ++ ":[]}]"));
                    ("newValue", VStr "true")])]
  /\ (forall (props : list (string * value)) (name : string),
        diff VNull (VObj props) name
        = VObj [(name,
                 VObj [("description", VStr "Property added");
                       ("newValue", serialized (VObj props))])]
        /\ diff (VObj props) VNull name
           = VObj [(name,
                    VObj [("description", VStr "Property removed");
                          ("oldValue", serialized (VObj props))])])
  /\ diff VNull (VObj [("a", num 1)]) "n"
     = VObj [("n",
              VObj [("description", VStr "Property added");
                    ("newValue", VStr ("{" ++ dq ++ "a" ++ dq ++ ":1}"))])].
Proof.
  split; [|split; [reflexivity|split; [reflexivity|split; [reflexivity|]]]].
  - intros a b name Ht Hn. rewrite diff_unfold.
    destruct a, b; simpl in Ht, Hn; try discriminate Hn;
      try (exfalso; apply Ht; reflexivity); reflexivity.
  - split; [|reflexivity].
    intros props name. split; now rewrite diff_unfold.
Qed.

Lemma C5_type_changed_witness :
  diff (VObj [("a", VStr "b")]) (VStr "a") "n"
  = VObj [("n",
           VObj [("description", VStr "Type changed from object to string");
                 ("oldValue",
                   VStr ("{" ++ dq ++ "a" ++ dq ++ ":" ++ dq ++ "b" ++ dq ++ "}"));
                 ("newValue", VStr (dq ++ "a" ++ dq))])].
Proof.
  rewrite (proj1 C5_type_changed (VObj [("a", VStr "b")]) (VStr "a") "n").
  - reflexivity.
  - simpl. discriminate.
  - reflexivity.
Defined.

Lemma diff_null_swap_bounded (n : nat) :
  forall (a b : value) (na nb : string),
    size a < n -> diff a b na = VNull -> diff b a nb = VNull.
Proof.
  induction n as [|n IH]; intros a b na nb Hsize H; [lia|].
  assert (Hobj : object_like a = true -> object_like b = true ->
                 isArray a && isArray b = false -> diff b a nb = VNull).
  { intros Ha Hb Hab.
    apply diff_objects_null in H; try assumption.
    apply diff_objects_null; try assumption.
    { now rewrite andb_comm. }
    apply object_entries_nil in H. destruct H as (H1 & H2 & H3).
    apply object_entries_nil. repeat split; try assumption.
    intros k Hkb Hka. apply (IH _ _ k k); [|now apply H3].
    assert (size (get a k) < size a); [|lia].
    apply size_get; destruct a; try discriminate; reflexivity. }
  destruct a, b;
    try (rewrite diff_unfold in H; discriminate H);
    try (rewrite diff_unfold; reflexivity);
    try (apply Hobj; reflexivity).
  1-3: clear Hobj; rewrite diff_primitives in H |- * by reflexivity;
    rewrite strict_equal_sym;
    destruct (strict_equal _ _); [reflexivity | discriminate H].
  apply diff_arrays_null in H. apply diff_arrays_null. tauto.
Qed.

(** C6: [diff(a, b, n)] is [null] exactly when [diff(b, a, n)] is. *)
Theorem C6_detection_symmetric (a b : value) (name : string) :
  diff a b name = VNull <-> diff b a name = VNull.
Proof.
  split.
  - apply (diff_null_swap_bounded (S (size a))). lia.
  - apply (diff_null_swap_bounded (S (size b))). lia.
Qed.

Lemma C6_detection_symmetric_witness :
  diff (VObj [("a", num 1); ("b", VArr [num 1; num 2])])
       (VObj [("b", VArr [num 2; num 1; num 1]); ("a", num 1)]) "o" = VNull
  /\ diff (VObj [("b", VArr [num 2; num 1; num 1]); ("a", num 1)])
          (VObj [("a", num 1); ("b", VArr [num 1; num 2])]) "o" = VNull.
Proof.
  split; [reflexivity|].
  apply (proj1 (C6_detection_symmetric
                  (VObj [("a", num 1); ("b", VArr [num 1; num 2])])
                  (VObj [("b", VArr [num 2; num 1; num 1]); ("a", num 1)]) "o")).
  reflexivity.
Defined.

End DiffProperties.

(** ** Characters, patterns and numerals *)

Module ValidatorFacts.
Import DocumentValidator ValidatorSpec.
#[local] Open Scope list_scope.

Lemma in_range_spec (lo hi : nat) (c : ascii) :
  in_range lo hi c = true <-> lo <= nat_of_ascii c <= hi.
Proof.
  unfold in_range. rewrite andb_true_iff, !Nat.leb_le. tauto.
Qed.

Lemma is_digit_spec (c : ascii) : is_digit c = true <-> 48 <= nat_of_ascii c <= 57.
Proof. apply in_range_spec. Qed.

Lemma is_upper_spec (c : ascii) : is_upper c = true <-> 65 <= nat_of_ascii c <= 90.
Proof. apply in_range_spec. Qed.

Lemma in_range_false (lo hi : nat) (c : ascii) :
  nat_of_ascii c < lo \/ hi < nat_of_ascii c -> in_range lo hi c = false.
Proof.
  intros H. destruct (in_range lo hi c) eqn:E; [|reflexivity].
  apply in_range_spec in E. lia.
Qed.

Lemma digit_not_upper (c : ascii) : is_digit c = true -> is_upper c = false.
Proof.
  intros H. apply is_digit_spec in H. apply in_range_false. lia.
Qed.

Lemma digit_is_upper_or_digit (c : ascii) :
  is_digit c = true -> is_upper_or_digit c = true.
Proof. intros H. unfold is_upper_or_digit. rewrite H. apply orb_true_r. Qed.

Lemma digit_kept (c : ascii) : is_digit c = true -> is_hyphen_or_space c = false.
Proof.
  intros H. apply is_digit_spec in H. unfold is_hyphen_or_space.
  rewrite (in_range_false 9 13) by lia.
  destruct (Nat.eqb_spec (nat_of_ascii c) 45); [lia|].
  destruct (Nat.eqb_spec (nat_of_ascii c) 32); [lia|]. reflexivity.
Qed.

Lemma digit_toUpperCase (c : ascii) : is_digit c = true -> toUpperCase_char c = c.
Proof.
  intros H. apply is_digit_spec in H. unfold toUpperCase_char, is_lower.
  now rewrite in_range_false by lia.
Qed.

Lemma normalize_app (a b : chars) :
  normal_form (a ++ b) = (normal_form a ++ normal_form b)%list.
Proof. unfold normal_form. now rewrite filter_app, map_app. Qed.

Lemma normalize_digit (c : ascii) (s : chars) :
  is_digit c = true -> normal_form (c :: s) = c :: normal_form s.
Proof.
  intros H. unfold normal_form. simpl.
  rewrite (digit_kept c H). simpl. now rewrite (digit_toUpperCase c H).
Qed.

Lemma list_ascii_of_string_app (a b : string) :
  list_ascii_of_string (a ++ b)%string
  = list_ascii_of_string a ++ list_ascii_of_string b.
Proof. induction a as [|c a IH]; simpl; [reflexivity | now rewrite IH]. Qed.

Lemma firstn_app_exact {A : Type} (n : nat) (a b : list A) :
  List.length a = n -> firstn n (a ++ b) = a.
Proof.
  intros <-. rewrite firstn_app, Nat.sub_diag, firstn_all. simpl.
  apply app_nil_r.
Qed.

Lemma skipn_app_exact {A : Type} (n : nat) (a b : list A) :
  List.length a = n -> skipn n (a ++ b) = b.
Proof.
  intros <-. rewrite skipn_app, Nat.sub_diag, skipn_all. reflexivity.
Qed.

(** *** Patterns *)

Lemma test_nil (s : chars) : test [] s = true <-> s = [].
Proof. destruct s; simpl; split; congruence. Qed.

Lemma test_cons (class : ascii -> bool) (lo hi : nat) (rest : pattern) (s : chars) :
  test ((class, lo, hi) :: rest) s = true <->
  exists k, lo <= k < lo + (hi - lo + 1)
            /\ k <= List.length s
            /\ forallb class (firstn k s) = true
            /\ test rest (skipn k s) = true.
Proof.
  simpl. rewrite existsb_exists. split.
  - intros (k & Hk & H). apply in_seq in Hk.
    apply andb_true_iff in H. destruct H as [H H3].
    apply andb_true_iff in H. destruct H as [H1 H2].
    apply Nat.leb_le in H1. exists k. auto.
  - intros (k & Hk & H1 & H2 & H3). exists k. split.
    + now apply in_seq.
    + apply Nat.leb_le in H1. now rewrite H1, H2, H3.
Qed.

(** A pattern made of one class repeated exactly [n] times, then [rest]. *)
Lemma test_exactly (class : ascii -> bool) (n : nat) (rest : pattern) (s : chars) :
  test ((class, n, n) :: rest) s = true <->
  n <= List.length s
  /\ forallb class (firstn n s) = true
  /\ test rest (skipn n s) = true.
Proof.
  rewrite test_cons. split.
  - intros (k & Hk & H). assert (k = n) by lia. now subst.
  - intros H. exists n. split; [lia | assumption].
Qed.

(** *** Numerals *)

Lemma digit_value_range (c : ascii) :
  is_digit c = true -> (0 <= digit_value c <= 9)%Z.
Proof. intros H. apply is_digit_spec in H. unfold digit_value. lia. Qed.

Lemma digit_value_inj (c c' : ascii) :
  is_digit c = true -> is_digit c' = true ->
  digit_value c = digit_value c' -> c = c'.
Proof.
  intros H H' E. apply is_digit_spec in H, H'. unfold digit_value in E.
  assert (En : nat_of_ascii c = nat_of_ascii c') by lia.
  rewrite <- (ascii_nat_embedding c), <- (ascii_nat_embedding c'). now rewrite En.
Qed.

Lemma leading_digits_all (s : chars) (acc : Z) :
  all_digits s ->
  leading_digits acc s = fold_left (fun a c => (a * 10 + digit_value c)%Z) s acc.
Proof.
  unfold all_digits. revert acc. induction s as [|c s IH]; intros acc H; simpl in *.
  - reflexivity.
  - apply andb_true_iff in H. destruct H as [Hc Hs]. rewrite Hc. now apply IH.
Qed.

Lemma skip_spaces_digit (c : ascii) (s : chars) :
  is_digit c = true -> skip_spaces (c :: s) = c :: s.
Proof.
  intros H. apply is_digit_spec in H. simpl.
  rewrite (in_range_false 9 13) by lia.
  destruct (Nat.eqb_spec (nat_of_ascii c) 32); [lia | reflexivity].
Qed.

(** [parseInt] on a non-empty string of digits. *)
Lemma parseInt_digits (s : chars) :
  s <> [] -> all_digits s -> parseInt s = Some (decimal s).
Proof.
  destruct s as [|c s]; [congruence|]. intros _ H.
  assert (Hc : is_digit c = true).
  { unfold all_digits in H. simpl in H. now apply andb_true_iff in H. }
  unfold parseInt. rewrite (skip_spaces_digit c s Hc).
  pose proof (proj1 (is_digit_spec c) Hc) as Hr.
  destruct (Nat.eqb_spec (nat_of_ascii c) 45); [lia|].
  destruct (Nat.eqb_spec (nat_of_ascii c) 43); [lia|].
  unfold parse_digits. rewrite Hc. f_equal. now apply leading_digits_all.
Qed.

Lemma decimal_nonneg_from (s : chars) (acc : Z) :
  all_digits s -> (0 <= acc)%Z ->
  (0 <= fold_left (fun a c => (a * 10 + digit_value c)%Z) s acc)%Z.
Proof.
  unfold all_digits. revert acc. induction s as [|c s IH]; intros acc H Hacc; simpl in *.
  - assumption.
  - apply andb_true_iff in H. destruct H as [Hc Hs].
    apply IH; [assumption|]. pose proof (digit_value_range c Hc). lia.
Qed.

Lemma decimal_nonneg (s : chars) : all_digits s -> (0 <= decimal s)%Z.
Proof. intros H. apply decimal_nonneg_from; [assumption | lia]. Qed.

Lemma all_digits_app (a b : chars) :
  all_digits (a ++ b) <-> all_digits a /\ all_digits b.
Proof. unfold all_digits. rewrite forallb_app. apply andb_true_iff. Qed.

End ValidatorFacts.

(** ** Properties of the validators *)

Module ValidatorProperties.
Import DocumentValidator ValidatorSpec ValidatorFacts.
#[local] Open Scope list_scope.

Lemma singleton_shape (class : ascii -> bool) (t : chars) :
  1 <= List.length t -> forallb class (firstn 1 t) = true -> skipn 1 t = [] ->
  exists c, t = [c] /\ class c = true.
Proof.
  destruct t as [|c [|d t]]; simpl; intros Hl Hc Hs; try lia; try discriminate.
  exists c. split; [reflexivity|]. now apply andb_true_iff in Hc.
Qed.

(** What [^[0-9]{8}[A-Z]$] accepts. *)
Lemma re_DNI_shape (n : chars) :
  test re_DNI n = true <->
  exists digits letter,
    n = digits ++ [letter] /\ List.length digits = 8
    /\ all_digits digits /\ is_upper letter = true.
Proof.
  unfold re_DNI. rewrite test_exactly. split.
  - intros (Hlen & Hd & Hrest).
    apply test_exactly in Hrest. destruct Hrest as (Hl & Hu & Hnil).
    apply test_nil in Hnil.
    destruct (singleton_shape is_upper (skipn 8 n) Hl Hu Hnil) as (c & Ec & Hc).
    exists (firstn 8 n), c. repeat split; try assumption.
    + rewrite <- Ec. symmetry. apply firstn_skipn.
    + now apply firstn_length_le.
  - intros (ds & l & -> & Hlen & Hd & Hu).
    rewrite length_app, (firstn_app_exact 8), (skipn_app_exact 8) by assumption.
    simpl. rewrite Hu. repeat split; try lia; assumption.
Qed.

Lemma char_strict_equal_Some (c : ascii) (o : option ascii) :
  char_strict_equal (Some c) o = true <-> o = Some c.
Proof.
  destruct o as [d|]; simpl; [|split; discriminate].
  rewrite Ascii.eqb_eq. split; congruence.
Qed.

Lemma char_at_nonneg (s : chars) (i : Z) :
  (0 <= i)%Z -> char_at s i = nth_error s (Z.to_nat i).
Proof. intros H. unfold char_at. destruct (Z.ltb_spec i 0); [lia | reflexivity]. Qed.

(** [normalize] returns on strings only. *)
Lemma normalize_Returns (value : input) (normalized : chars) :
  normalize value = Returns normalized <->
  exists s, value = Str s /\ normalized = normal_form (list_ascii_of_string s).
Proof.
  split.
  - destruct value as [| |s]; try discriminate. intros [= <-]. now exists s.
  - intros (s & -> & ->). reflexivity.
Qed.

Ltac split_matches :=
  repeat match goal with
         | |- context [match ?x with _ => _ end] => destruct x
         end.

(** No validator throws: each one returns a boolean. *)
Lemma isValidDNI_returns (value : input) : exists b, isValidDNI value = Returns b.
Proof.
  destruct value as [| |s]; try (exists false; reflexivity).
  unfold isValidDNI. cbn [falsy normalize bind]. split_matches; eauto.
Qed.

Lemma isValidNIE_returns (value : input) : exists b, isValidNIE value = Returns b.
Proof.
  destruct value as [| |s]; try (exists false; reflexivity).
  unfold isValidNIE. cbn [falsy normalize bind]. split_matches; eauto.
Qed.

Lemma isValidSpanishSSN_returns (value : input) :
  exists b, isValidSpanishSSN value = Returns b.
Proof.
  destruct value as [| |s]; try (exists false; reflexivity).
  unfold isValidSpanishSSN. cbn [falsy normalize bind]. split_matches; eauto.
Qed.

Lemma isValidIBAN_returns (value : input) : exists b, isValidIBAN value = Returns b.
Proof.
  destruct value as [| |s]; try (exists false; reflexivity).
  unfold isValidIBAN. cbn [falsy normalize bind]. split_matches; eauto.
Qed.

Lemma returns_true_or_false {f : input -> outcome bool} (value : input) :
  (exists b, f value = Returns b) ->
  f value = Returns true \/ f value = Returns false.
Proof. intros [[|] H]; auto. Qed.

(** The answer of [isValidDNI] on a well-formed normalized string. *)
Lemma isValidDNI_shape (s : string) (digits : chars) (letter : ascii) :
  normal_form (list_ascii_of_string s) = digits ++ [letter] ->
  List.length digits = 8 -> all_digits digits -> is_upper letter = true ->
  isValidDNI (Str s)
  = Returns (char_strict_equal (Some letter)
               (nth_error DNI_LETTERS (Z.to_nat (decimal digits mod 23)))).
Proof.
  intros En Hlen Hd Hu. unfold isValidDNI. simpl falsy.
  destruct (String.eqb_spec s "") as [->|_].
  { destruct digits; discriminate En. }
  cbn [normalize bind]. rewrite En.
  assert (Ht : test re_DNI (digits ++ [letter]) = true).
  { apply re_DNI_shape. exists digits, letter. auto. }
  rewrite Ht. simpl negb. cbv iota.
  assert (Es : slice (digits ++ [letter]) 0 8 = digits).
  { unfold slice. simpl skipn. now apply firstn_app_exact. }
  rewrite Es, parseInt_digits; try assumption.
  2:{ destruct digits; [discriminate Hlen | discriminate]. }
  pose proof (decimal_nonneg digits Hd) as Hnn.
  rewrite Z.rem_mod_nonneg by lia.
  rewrite (char_at_nonneg DNI_LETTERS) by (apply Z.mod_pos_bound; lia).
  rewrite char_at_nonneg by lia.
  rewrite nth_error_app2 by (rewrite Hlen; simpl; lia).
  rewrite Hlen. reflexivity.
Qed.

(** C7: [isValidDNI] answers [true] exactly on strings whose normal form is
    eight digits and a capital letter, the letter being the one the table
    [TRWAGMYFPDXBNJZSQVHLCKE] holds at index (number mod 23); on every
    other input it answers [false]. *)
Theorem C7_isValidDNI :
  (forall dni : input,
      isValidDNI dni = Returns true <->
      exists normalized,
        normalize dni = Returns normalized /\ DNI_valid normalized)
  /\ (forall dni : input,
        isValidDNI dni = Returns true \/ isValidDNI dni = Returns false)
  /\ isValidDNI (Str "12345678Z") = Returns true
  /\ isValidDNI (Str "12345678A") = Returns false.
Proof.
  split; [|split; [|split; reflexivity]].
  2:{ intros dni. apply returns_true_or_false, isValidDNI_returns. }
  intros dni. split.
  - intros H. destruct dni as [| |s]; try discriminate H.
    exists (normal_form (list_ascii_of_string s)). split; [reflexivity|].
    assert (Ht : test re_DNI (normal_form (list_ascii_of_string s)) = true).
    { unfold isValidDNI in H. cbn [normalize bind] in H.
      destruct (falsy (Str s)); [discriminate H|].
      destruct (test re_DNI _); [reflexivity | discriminate H]. }
    apply re_DNI_shape in Ht. destruct Ht as (ds & l & En & Hlen & Hd & Hu).
    rewrite (isValidDNI_shape s ds l En Hlen Hd Hu) in H.
    injection H as H. apply char_strict_equal_Some in H.
    exists ds, l. auto.
  - intros (n & Hn & ds & l & En & Hlen & Hd & Hu & Hl).
    apply normalize_Returns in Hn. destruct Hn as (s & -> & ->).
    rewrite (isValidDNI_shape s ds l En Hlen Hd Hu). f_equal.
    now apply char_strict_equal_Some.
Qed.

Lemma C7_isValidDNI_witness :
  isValidDNI (Str "12345678-z") = Returns true.
Proof.
  apply (proj1 C7_isValidDNI). exists (list_ascii_of_string "12345678Z").
  split; [reflexivity|].
  exists (list_ascii_of_string "12345678"), "Z"%char.
  split; [reflexivity|]. split; [reflexivity|]. split; [reflexivity|].
  split; reflexivity.
Defined.

(** What [^[0-9]{12}$] accepts. *)
Lemma re_SSN_shape (n : chars) :
  test re_SSN n = true <-> List.length n = 12 /\ all_digits n.
Proof.
  unfold re_SSN. rewrite test_exactly, test_nil. split.
  - intros (Hlen & Hd & Hnil).
    assert (El : List.length n = 12).
    { pose proof (length_skipn 12 n) as E. rewrite Hnil in E. simpl in E. lia. }
    split; [assumption|]. rewrite <- El, firstn_all in Hd. exact Hd.
  - intros (El & Hd). repeat split.
    + lia.
    + rewrite <- El, firstn_all. exact Hd.
    + rewrite <- El. apply skipn_all.
Qed.

(** The three fields of twelve characters. *)
Lemma SSN_fields (n : chars) :
  List.length n = 12 ->
  n = slice n 0 2 ++ slice n 2 10 ++ slice_from n 10
  /\ List.length (slice n 0 2) = 2
  /\ List.length (slice n 2 10) = 8
  /\ List.length (slice_from n 10) = 2.
Proof.
  intros H.
  do 12 (destruct n as [|? n]; [discriminate H|]).
  destruct n; [|discriminate H]. repeat split.
Qed.

Lemma SSN_fields_unique (p q c : chars) :
  List.length p = 2 -> List.length q = 8 ->
  slice (p ++ q ++ c) 0 2 = p
  /\ slice (p ++ q ++ c) 2 10 = q
  /\ slice_from (p ++ q ++ c) 10 = c.
Proof.
  intros Hp Hq. unfold slice, slice_from. repeat split.
  - simpl skipn. now apply firstn_app_exact.
  - rewrite (skipn_app_exact 2) by assumption. now apply firstn_app_exact.
  - rewrite app_assoc. apply skipn_app_exact. rewrite length_app. lia.
Qed.

Lemma isValidSpanishSSN_shape (s : string) (p q c : chars) :
  normal_form (list_ascii_of_string s) = p ++ q ++ c ->
  List.length p = 2 -> List.length q = 8 -> List.length c = 2 ->
  all_digits (p ++ q ++ c) ->
  isValidSpanishSSN (Str s)
  = Returns (SSN_check (decimal p) (decimal q) (decimal c)).
Proof.
  intros En Hp Hq Hc Hd. unfold isValidSpanishSSN. simpl falsy.
  destruct (String.eqb_spec s "") as [->|_].
  { apply (f_equal (@List.length ascii)) in En.
    rewrite !length_app in En. simpl in En. lia. }
  cbn [normalize bind]. rewrite En.
  assert (Ht : test re_SSN (p ++ q ++ c) = true).
  { apply re_SSN_shape. split; [|assumption]. rewrite !length_app. lia. }
  rewrite Ht. simpl negb. cbv iota.
  destruct (SSN_fields_unique p q c Hp Hq) as (E1 & E2 & E3).
  rewrite E1, E2, E3.
  apply all_digits_app in Hd. destruct Hd as [Hdp Hd].
  apply all_digits_app in Hd. destruct Hd as [Hdq Hdc].
  rewrite !parseInt_digits; try assumption; try (intros ->; discriminate).
  unfold SSN_check. now destruct ((decimal p <? 1)%Z || (52 <? decimal p)%Z).
Qed.

Lemma SSN_check_spec (p q c : chars) :
  all_digits p -> all_digits q ->
  SSN_check (decimal p) (decimal q) (decimal c) = true <->
  (1 <= decimal p <= 52)%Z
  /\ decimal c
     = ((decimal p
         * (if (decimal q <? 10000000)%Z then 10000000 else 100000000)
         + decimal q) mod 97)%Z.
Proof.
  intros Hp Hq. unfold SSN_check.
  pose proof (decimal_nonneg p Hp). pose proof (decimal_nonneg q Hq).
  rewrite Z.rem_mod_nonneg by (destruct (decimal q <? 10000000)%Z; lia).
  destruct (Z.ltb_spec (decimal p) 1); simpl.
  { split; [discriminate | lia]. }
  destruct (Z.ltb_spec 52 (decimal p)); simpl.
  { split; [discriminate | lia]. }
  rewrite Z.eqb_eq. split; [intros E; split; [lia | exact E] | tauto].
Qed.

(** C9: [isValidSpanishSSN] answers [true] exactly on strings whose normal
    form is twelve digits with a province between 1 and 52 and a checksum
    equal to (province * multiplier + number) mod 97, and [false] on every
    other input; a province of 0 or 53 is refused whatever the checksum. *)
Theorem C9_isValidSpanishSSN :
  (forall ssn : input,
      isValidSpanishSSN ssn = Returns true <->
      exists normalized,
        normalize ssn = Returns normalized /\ SSN_valid normalized)
  /\ (forall ssn : input,
        isValidSpanishSSN ssn = Returns true
        \/ isValidSpanishSSN ssn = Returns false)
  /\ (forall (ssn : input) (number checksum : chars),
        List.length number = 8 -> List.length checksum = 2 ->
        normalize ssn
          = Returns (list_ascii_of_string "00" ++ number ++ checksum)
        \/ normalize ssn
           = Returns (list_ascii_of_string "53" ++ number ++ checksum) ->
        isValidSpanishSSN ssn = Returns false).
Proof.
  assert (Hiff : forall ssn : input,
      isValidSpanishSSN ssn = Returns true <->
      exists normalized,
        normalize ssn = Returns normalized /\ SSN_valid normalized).
  { intros ssn. split.
    - intros H. destruct ssn as [| |s]; try discriminate H.
      exists (normal_form (list_ascii_of_string s)). split; [reflexivity|].
      assert (Ht : test re_SSN (normal_form (list_ascii_of_string s)) = true).
      { unfold isValidSpanishSSN in H. cbn [normalize bind] in H.
        destruct (falsy (Str s)); [discriminate H|].
        destruct (test re_SSN _); [reflexivity | discriminate H]. }
      apply re_SSN_shape in Ht. destruct Ht as [Hlen Hd].
      destruct (SSN_fields _ Hlen) as (En & Hp & Hq & Hc).
      set (n := normal_form (list_ascii_of_string s)) in *.
      assert (Hd' : all_digits (slice n 0 2 ++ slice n 2 10 ++ slice_from n 10))
        by now rewrite <- En.
      rewrite (isValidSpanishSSN_shape s _ _ _ En Hp Hq Hc Hd') in H.
      injection H as H.
      apply all_digits_app in Hd'. destruct Hd' as [Hdp Hd'].
      apply all_digits_app in Hd'. destruct Hd' as [Hdq Hdc].
      apply SSN_check_spec in H; try assumption. destruct H as [Hr Hck].
      exists (slice n 0 2), (slice n 2 10), (slice_from n 10).
      repeat split; try assumption; lia.
    - intros (n & Hn & p & q & c & En & Hp & Hq & Hc & Hd & Hr & Hck).
      apply normalize_Returns in Hn. destruct Hn as (s & -> & ->).
      rewrite En in Hd.
      rewrite (isValidSpanishSSN_shape s p q c En Hp Hq Hc Hd). f_equal.
      apply all_digits_app in Hd. destruct Hd as [Hdp Hd].
      apply all_digits_app in Hd. destruct Hd as [Hdq Hdc].
      apply SSN_check_spec; auto. }
  split; [exact Hiff|]. split.
  { intros ssn. apply returns_true_or_false, isValidSpanishSSN_returns. }
  intros ssn number checksum Hq Hc En.
  destruct (isValidSpanishSSN_returns ssn) as [[|] E]; [|exact E].
  apply Hiff in E.
  destruct E as (n & Hn & p & q & c & En' & Hp & Hq' & _ & _ & Hr & _).
  exfalso.
  assert (Ep : firstn 2 n = p).
  { rewrite En'. now apply firstn_app_exact. }
  destruct En as [En|En]; rewrite En in Hn; injection Hn as Hn;
    rewrite <- Hn in Ep; simpl in Ep; subst p;
    vm_compute in Hr; destruct Hr as [H1 H2]; auto.
Qed.

Lemma C9_isValidSpanishSSN_witness :
  isValidSpanishSSN (Str "28-12345678-40") = Returns true
  /\ isValidSpanishSSN (Str "001234567812") = Returns false.
Proof.
  split.
  - apply (proj1 C9_isValidSpanishSSN).
    exists (list_ascii_of_string "281234567840"). split; [reflexivity|].
    exists (list_ascii_of_string "28"), (list_ascii_of_string "12345678"),
      (list_ascii_of_string "40").
    repeat split; vm_compute; congruence.
  - apply (proj2 (proj2 C9_isValidSpanishSSN) (Str "001234567812")
             (list_ascii_of_string "12345678") (list_ascii_of_string "12"));
      [reflexivity | reflexivity | left; reflexivity].
Defined.

Lemma pattern_mismatch (b : bool) (rest : outcome bool) :
  b = false -> (if negb b then Returns false else rest) = Returns false.
Proof. now intros ->. Qed.

(** C10: every validator returns [false] on [null], [undefined] and the
    empty string, although [normalize] itself throws on [null] and
    [undefined]; on every input it returns a boolean and never throws, and
    it returns [false] whenever the normalized string does not match its
    pattern. *)
Theorem C10_validators_never_fail :
  (isValidDNI Null = Returns false /\ isValidDNI Undefined = Returns false
   /\ isValidDNI (Str "") = Returns false)
  /\ (isValidNIE Null = Returns false /\ isValidNIE Undefined = Returns false
      /\ isValidNIE (Str "") = Returns false)
  /\ (isValidSpanishSSN Null = Returns false
      /\ isValidSpanishSSN Undefined = Returns false
      /\ isValidSpanishSSN (Str "") = Returns false)
  /\ (isValidIBAN Null = Returns false /\ isValidIBAN Undefined = Returns false
      /\ isValidIBAN (Str "") = Returns false)
  /\ (normalize Null = Throws TypeError /\ normalize Undefined = Throws TypeError)
  /\ (forall value : input,
        (exists b, isValidDNI value = Returns b)
        /\ (exists b, isValidNIE value = Returns b)
        /\ (exists b, isValidSpanishSSN value = Returns b)
        /\ (exists b, isValidIBAN value = Returns b))
  /\ (forall (value : input) (normalized : chars),
        normalize value = Returns normalized ->
        (test re_DNI normalized = false -> isValidDNI value = Returns false)
        /\ (test re_NIE normalized = false -> isValidNIE value = Returns false)
        /\ (test re_SSN normalized = false
            -> isValidSpanishSSN value = Returns false)
        /\ (test re_IBAN normalized = false
            -> isValidIBAN value = Returns false)).
Proof.
  do 5 (split; [repeat split|]).
  split.
  - intros value. split; [apply isValidDNI_returns|].
    split; [apply isValidNIE_returns|].
    split; [apply isValidSpanishSSN_returns | apply isValidIBAN_returns].
  - intros value normalized Hn.
    apply normalize_Returns in Hn. destruct Hn as (s & -> & ->).
    unfold isValidDNI, isValidNIE, isValidSpanishSSN, isValidIBAN.
    cbn [normalize bind]. destruct (falsy (Str s)); [repeat split|].
    repeat split; intros H; now apply pattern_mismatch.
Qed.

Lemma C10_validators_never_fail_witness :
  isValidDNI (Str "not a document") = Returns false
  /\ isValidNIE (Str "not a document") = Returns false
  /\ isValidSpanishSSN (Str "not a document") = Returns false
  /\ isValidIBAN (Str "not a document") = Returns false.
Proof.
  pose proof (proj2 (proj2 (proj2 (proj2 (proj2 (proj2
                C10_validators_never_fail)))))
                (Str "not a document")
                (list_ascii_of_string "NOTADOCUMENT") eq_refl) as H.
  destruct H as (H1 & H2 & H3 & H4).
  split; [|split; [|split]];
    [apply H1 | apply H2 | apply H3 | apply H4]; reflexivity.
Defined.

(** *** IBAN *)

(** What [^[A-Z]{2}[0-9]{2}[A-Z0-9]{9,30}$] accepts. *)
Lemma re_IBAN_shape (n : chars) :
  test re_IBAN n = true <->
  exists u1 u2 d1 d2 rest,
    n = u1 :: u2 :: d1 :: d2 :: rest
    /\ is_upper u1 = true /\ is_upper u2 = true
    /\ is_digit d1 = true /\ is_digit d2 = true
    /\ forallb is_upper_or_digit rest = true
    /\ 9 <= List.length rest <= 30.
Proof.
  unfold re_IBAN. rewrite test_exactly. split.
  - intros (Hlen & Hu & Hrest).
    apply test_exactly in Hrest. destruct Hrest as (Hlen2 & Hd & Hrest).
    apply test_cons in Hrest. destruct Hrest as (k & Hk & Hkl & Hc & Hnil).
    apply test_nil in Hnil.
    destruct n as [|u1 [|u2 [|d1 [|d2 rest]]]]; simpl in Hlen, Hlen2; try lia.
    simpl in Hu, Hd, Hc, Hnil, Hkl.
    apply andb_true_iff in Hu. destruct Hu as [Hu1 Hu].
    apply andb_true_iff in Hu. destruct Hu as [Hu2 _].
    apply andb_true_iff in Hd. destruct Hd as [Hd1 Hd].
    apply andb_true_iff in Hd. destruct Hd as [Hd2 _].
    assert (Ek : k = List.length rest).
    { pose proof (length_skipn k rest) as E. rewrite Hnil in E. simpl in E. lia. }
    subst k. rewrite firstn_all in Hc.
    exists u1, u2, d1, d2, rest. repeat split; try assumption; lia.
  - intros (u1 & u2 & d1 & d2 & rest & -> & Hu1 & Hu2 & Hd1 & Hd2 & Hc & Hl).
    split; [simpl; lia|]. split; [simpl; now rewrite Hu1, Hu2|].
    change (skipn 2 (u1 :: u2 :: d1 :: d2 :: rest)) with (d1 :: d2 :: rest).
    apply test_exactly.
    split; [simpl; lia|]. split; [simpl; now rewrite Hd1, Hd2|].
    change (skipn 2 (d1 :: d2 :: rest)) with rest.
    apply test_cons. exists (List.length rest).
    split; [lia|]. split; [lia|]. split.
    + now rewrite firstn_all.
    + apply test_nil, skipn_all.
Qed.

(** Replacing a digit by a digit in a string keeps it in the pattern, and
    the digit sits at the same place of the rearranged string. *)
Lemma IBAN_digit_position (P Q : chars) (c : ascii) :
  is_digit c = true ->
  test re_IBAN (P ++ c :: Q) = true ->
  exists X Y,
    forall c', is_digit c' = true ->
      test re_IBAN (P ++ c' :: Q) = true
      /\ slice_from (P ++ c' :: Q) 4 ++ slice (P ++ c' :: Q) 0 4 = X ++ c' :: Y.
Proof.
  intros Hc Ht. apply re_IBAN_shape in Ht.
  destruct Ht as (u1 & u2 & d1 & d2 & rest & En & Hu1 & Hu2 & Hd1 & Hd2 & Hr & Hl).
  pose proof (digit_not_upper c Hc) as Hnu.
  destruct P as [|p0 [|p1 [|p2 [|p3 P]]]]; simpl in En; injection En as; subst;
    try congruence.
  - exists (rest ++ [u1; u2]), [d2]. intros c' Hc'. split.
    + apply re_IBAN_shape. exists u1, u2, c', d2, rest. repeat split; auto; lia.
    + unfold slice_from, slice. simpl. now rewrite <- app_assoc.
  - exists (rest ++ [u1; u2; d1]), []. intros c' Hc'. split.
    + apply re_IBAN_shape. exists u1, u2, d1, c', rest. repeat split; auto; lia.
    + unfold slice_from, slice. simpl. now rewrite <- app_assoc.
  - exists P, (Q ++ [u1; u2; d1; d2]). intros c' Hc'. split.
    + apply re_IBAN_shape. exists u1, u2, d1, d2, (P ++ c' :: Q).
      rewrite forallb_app in Hr |- *. simpl in Hr |- *.
      apply andb_true_iff in Hr. destruct Hr as [HP HQ].
      apply andb_true_iff in HQ. destruct HQ as [_ HQ].
      rewrite HP, HQ, (digit_is_upper_or_digit c' Hc').
      rewrite length_app in Hl |- *. simpl in Hl |- *.
      repeat split; auto; lia.
    + unfold slice_from, slice. simpl. now rewrite <- app_assoc.
Qed.

Lemma letter_to_number_digit (c : ascii) :
  is_digit c = true -> letter_to_number c = [c].
Proof.
  intros H. apply is_digit_spec in H. unfold letter_to_number.
  destruct (Nat.leb_spec 65 (nat_of_ascii c)); [lia | reflexivity].
Qed.

Lemma parseInt_digit (c : ascii) :
  is_digit c = true -> parseInt [c] = Some (digit_value c).
Proof.
  intros H. rewrite parseInt_digits.
  - reflexivity.
  - discriminate.
  - unfold all_digits. simpl. now rewrite H.
Qed.

Lemma mod97_step_None (s : chars) : fold_left mod97_step s None = None.
Proof. induction s; simpl; auto. Qed.

(** 10 is invertible modulo 97. *)
Lemma divide_97_cancel_10 (x : Z) : (97 | 10 * x)%Z -> (97 | x)%Z.
Proof.
  intros [q Hq]. exists (68 * q - 7 * x)%Z. lia.
Qed.

Lemma rem_97_congruent (x : Z) : (97 | Z.rem x 97 - x)%Z.
Proof.
  exists (- (Z.quot x 97))%Z.
  pose proof (Z.quot_rem' x 97). lia.
Qed.

(** Two runs of the loop that differ modulo 97 keep differing. *)
Lemma mod97_diverge (s : chars) (a b : Z) :
  ~ (97 | a - b)%Z ->
  match fold_left mod97_step s (Some a), fold_left mod97_step s (Some b) with
  | Some a', Some b' => ~ (97 | a' - b')%Z
  | None, None => True
  | _, _ => False
  end.
Proof.
  revert a b. induction s as [|c s IH]; intros a b H; simpl.
  - exact H.
  - destruct (parseInt [c]) as [d|].
    + apply IH. intros Hdiv. apply H. apply divide_97_cancel_10.
      destruct (rem_97_congruent (a * 10 + d)) as [qa Ha].
      destruct (rem_97_congruent (b * 10 + d)) as [qb Hb].
      destruct Hdiv as [q Hq]. exists (q - qa + qb)%Z. lia.
    + now rewrite mod97_step_None.
Qed.

(** The loop after a digit [c] and after another digit [c'], from the same
    state. *)
Lemma mod97_substitution (A B : chars) (c c' : ascii) :
  is_digit c = true -> is_digit c' = true -> c <> c' ->
  fold_left mod97_step (A ++ c :: B) (Some 0%Z) = Some 1%Z ->
  fold_left mod97_step (A ++ c' :: B) (Some 0%Z) <> Some 1%Z.
Proof.
  intros Hc Hc' Hne. rewrite !fold_left_app. simpl.
  destruct (fold_left mod97_step A (Some 0%Z)) as [r|]; simpl.
  2:{ rewrite mod97_step_None. discriminate. }
  rewrite (parseInt_digit c Hc), (parseInt_digit c' Hc').
  pose proof (mod97_diverge B (Z.rem (r * 10 + digit_value c) 97)
                (Z.rem (r * 10 + digit_value c') 97)) as Hdiv.
  intros E1 E2. rewrite E1, E2 in Hdiv. apply Hdiv; [|exists 0%Z; lia].
  intros [q Hq].
  destruct (rem_97_congruent (r * 10 + digit_value c)) as [qa Ha].
  destruct (rem_97_congruent (r * 10 + digit_value c')) as [qb Hb].
  pose proof (digit_value_range c Hc). pose proof (digit_value_range c' Hc').
  assert (digit_value c <> digit_value c').
  { intros E. apply Hne. now apply digit_value_inj. }
  lia.
Qed.

(** [isValidIBAN] accepts exactly the strings whose normal form matches
    the pattern and whose digit string leaves remainder 1 in the loop. *)
Lemma isValidIBAN_true (s : string) :
  isValidIBAN (Str s) = Returns true <->
  test re_IBAN (normal_form (list_ascii_of_string s)) = true
  /\ fold_left mod97_step
       (IBAN_numeric (normal_form (list_ascii_of_string s))) (Some 0%Z)
     = Some 1%Z.
Proof.
  unfold isValidIBAN. simpl falsy. cbn [normalize bind].
  change (flat_map letter_to_number
            (slice_from (normal_form (list_ascii_of_string s)) 4
             ++ slice (normal_form (list_ascii_of_string s)) 0 4))
    with (IBAN_numeric (normal_form (list_ascii_of_string s))).
  destruct (String.eqb_spec s "") as [->|_].
  { split; [discriminate | intros [H _]; discriminate H]. }
  destruct (test re_IBAN (normal_form (list_ascii_of_string s))); simpl.
  - destruct (fold_left mod97_step _ _) as [r|].
    + split.
      * intros [= E]. apply Z.eqb_eq in E. subst r. auto.
      * intros [_ [= ->]]. reflexivity.
    + split; [discriminate | intros [_ H]; discriminate H].
  - split; [discriminate | intros [H _]; discriminate H].
Qed.

Lemma letter_to_number_upper (c : ascii) :
  is_upper c = true -> all_digits (letter_to_number c).
Proof.
  unfold all_digits.
  destruct c as [[] [] [] [] [] [] [] []]; vm_compute;
    intros H; try reflexivity; discriminate H.
Qed.

Lemma letter_to_number_digits (c : ascii) :
  is_upper_or_digit c = true -> all_digits (letter_to_number c).
Proof.
  unfold is_upper_or_digit. intros H. apply orb_true_iff in H.
  destruct H as [H|H].
  - now apply letter_to_number_upper.
  - rewrite (letter_to_number_digit c H). unfold all_digits. simpl. now rewrite H.
Qed.

Lemma flat_map_all_digits (s : chars) :
  forallb is_upper_or_digit s = true ->
  all_digits (flat_map letter_to_number s).
Proof.
  induction s as [|c s IH]; simpl; intros H; [reflexivity|].
  apply andb_true_iff in H. destruct H as [Hc Hs].
  apply all_digits_app. split; [now apply letter_to_number_digits | now apply IH].
Qed.

Lemma IBAN_numeric_digits (n : chars) :
  test re_IBAN n = true -> all_digits (IBAN_numeric n).
Proof.
  intros H. apply re_IBAN_shape in H.
  destruct H as (u1 & u2 & d1 & d2 & rest & -> & Hu1 & Hu2 & Hd1 & Hd2 & Hr & _).
  apply flat_map_all_digits. simpl. rewrite forallb_app, Hr. simpl.
  unfold is_upper_or_digit. rewrite Hu1, Hu2, Hd1, Hd2. simpl.
  now rewrite !orb_true_r.
Qed.

(** The loop computes the number modulo 97. *)
Lemma mod97_fold_decimal (s : chars) (a : Z) :
  all_digits s -> (0 <= a)%Z ->
  fold_left mod97_step s (Some (a mod 97)%Z)
  = Some ((fold_left (fun x c => (x * 10 + digit_value c)%Z) s a) mod 97)%Z.
Proof.
  unfold all_digits. revert a. induction s as [|c s IH]; intros a H Ha; simpl in *.
  - reflexivity.
  - apply andb_true_iff in H. destruct H as [Hc Hs].
    change (mod97_step (Some (a mod 97)%Z) c)
      with (match parseInt [c] with
            | Some d => Some (Z.rem (a mod 97 * 10 + d) 97)
            | None => None
            end).
    rewrite (parseInt_digit c Hc).
    pose proof (digit_value_range c Hc) as Hd.
    pose proof (Z.mod_pos_bound a 97 ltac:(lia)) as Hm.
    rewrite Z.rem_mod_nonneg by lia.
    replace ((a mod 97 * 10 + digit_value c) mod 97)%Z
      with ((a * 10 + digit_value c) mod 97)%Z.
    + apply IH; [assumption | lia].
    + rewrite (Z.add_mod (a * 10)), (Z.add_mod (a mod 97 * 10)) by lia.
      now rewrite Z.mul_mod_idemp_l by lia.
Qed.

(** C8: a string that [isValidIBAN] accepts is refused once any one of its
    digits is replaced by another digit; what is accepted has a digit string
    (first four characters moved to the end, letters replaced by numbers)
    that leaves remainder 1 modulo 97. *)
Theorem C8_IBAN_single_digit :
  (forall (before after : string) (c c' : ascii),
      is_digit c = true -> is_digit c' = true -> c <> c' ->
      isValidIBAN (Str (before ++ String c after)) = Returns true ->
      isValidIBAN (Str (before ++ String c' after)) = Returns false)
  /\ (forall iban : input,
        isValidIBAN iban = Returns true ->
        exists normalized,
          normalize iban = Returns normalized
          /\ (decimal (IBAN_numeric normalized) mod 97 = 1)%Z).
Proof.
  split.
  - intros before after c c' Hc Hc' Hne Hvalid.
    apply isValidIBAN_true in Hvalid. destruct Hvalid as [Ht Hrem].
    destruct (isValidIBAN_returns (Str (before ++ String c' after)))
      as [[|] E]; [|exact E].
    exfalso. apply isValidIBAN_true in E. destruct E as [_ Hrem'].
    revert Ht Hrem Hrem'.
    rewrite !list_ascii_of_string_app, !normalize_app.
    change (list_ascii_of_string (String c after))
      with (c :: list_ascii_of_string after).
    change (list_ascii_of_string (String c' after))
      with (c' :: list_ascii_of_string after).
    rewrite !normalize_digit by assumption.
    set (P := normal_form (list_ascii_of_string before)).
    set (Q := normal_form (list_ascii_of_string after)).
    intros Ht Hrem Hrem'.
    destruct (IBAN_digit_position P Q c Hc Ht) as (X & Y & Hpos).
    destruct (Hpos c Hc) as [_ Ec]. destruct (Hpos c' Hc') as [_ Ec'].
    unfold IBAN_numeric in Hrem, Hrem'.
    change (skipn 4 (P ++ c :: Q) ++ firstn 4 (P ++ c :: Q))
      with (slice_from (P ++ c :: Q) 4 ++ slice (P ++ c :: Q) 0 4) in Hrem.
    change (skipn 4 (P ++ c' :: Q) ++ firstn 4 (P ++ c' :: Q))
      with (slice_from (P ++ c' :: Q) 4 ++ slice (P ++ c' :: Q) 0 4) in Hrem'.
    rewrite Ec in Hrem. rewrite Ec' in Hrem'.
    rewrite flat_map_app in Hrem, Hrem'.
    cbn [flat_map] in Hrem, Hrem'.
    rewrite letter_to_number_digit in Hrem, Hrem' by assumption.
    cbn [app] in Hrem, Hrem'.
    exact (mod97_substitution _ _ c c' Hc Hc' Hne Hrem Hrem').
  - intros iban Hvalid. destruct iban as [| |s]; try discriminate Hvalid.
    exists (normal_form (list_ascii_of_string s)). split; [reflexivity|].
    apply isValidIBAN_true in Hvalid.
    destruct Hvalid as [Ht Hrem].
    pose proof (mod97_fold_decimal _ 0%Z (IBAN_numeric_digits _ Ht) ltac:(lia)) as E.
    change (0 mod 97)%Z with 0%Z in E. rewrite Hrem in E.
    unfold decimal. congruence.
Qed.

Lemma C8_IBAN_single_digit_witness :
  isValidIBAN (Str "ES91 2100 0418 4502 0005 1332") = Returns true
  /\ isValidIBAN (Str "ES91 2100 0418 4502 0005 1382") = Returns false.
Proof.
  split; [reflexivity|].
  apply (proj1 C8_IBAN_single_digit "ES91 2100 0418 4502 0005 13" "2"
           "3"%char "8"%char);
    try reflexivity.
  discriminate.
Defined.

End ValidatorProperties.

(** ** Further properties of [diff] *)

Module DiffExtras.
Import JS ObjectDiff DiffSpec DiffFacts DiffBranches.

(** The content of a result does not depend on the name it is filed
    under. *)
Lemma diff_entry (a b : value) :
  exists r : option value,
    forall name, diff a b name
                 = match r with
                   | None => VNull
                   | Some entry => named name entry
                   end.
Proof.
  destruct a, b;
    try (exists None; intros name; rewrite diff_unfold; reflexivity);
    try (eexists (Some _); intros name; rewrite diff_unfold; reflexivity).
  - destruct (strict_equal (VBool b0) (VBool b)) eqn:E;
      [exists None | eexists (Some _)]; intros name;
      rewrite diff_primitives by reflexivity; rewrite E; reflexivity.
  - destruct (strict_equal (VNum x) (VNum x0)) eqn:E;
      [exists None | eexists (Some _)]; intros name;
      rewrite diff_primitives by reflexivity; rewrite E; reflexivity.
  - destruct (strict_equal (VStr s) (VStr s0)) eqn:E;
      [exists None | eexists (Some _)]; intros name;
      rewrite diff_primitives by reflexivity; rewrite E; reflexivity.
  - destruct (only_in elements0 elements) eqn:E1;
      destruct (only_in elements elements0) eqn:E2;
      [exists None | eexists (Some _) | eexists (Some _) | eexists (Some _)];
      intros name; rewrite diff_arrays, E1, E2; reflexivity.
  - destruct (object_entries (VArr elements) (VObj properties)) eqn:E;
      [exists None | eexists (Some _)]; intros name;
      rewrite diff_objects by reflexivity; rewrite E; reflexivity.
  - destruct (object_entries (VObj properties) (VArr elements)) eqn:E;
      [exists None | eexists (Some _)]; intros name;
      rewrite diff_objects by reflexivity; rewrite E; reflexivity.
  - destruct (object_entries (VObj properties) (VObj properties0)) eqn:E;
      [exists None | eexists (Some _)]; intros name;
      rewrite diff_objects by reflexivity; rewrite E; reflexivity.
Qed.

(** X1: a result is [null] under every name, or it is an object with the
    name as its only key, and what the key holds is the same under every
    name. *)
Theorem diff_result_shape (a b : value) :
  (forall name, diff a b name = VNull)
  \/ (exists entry, forall name, diff a b name = VObj [(name, entry)]).
Proof.
  destruct (diff_entry a b) as [[entry|] H]; [right; exists entry | left];
    exact H.
Qed.

Lemma strict_equal_eq (a b : value) :
  isPrimitive a = true -> a <> VNum NaN ->
  strict_equal a b = true <-> a = b.
Proof.
  intros Ha Hnan.
  destruct a; try discriminate Ha; destruct b; simpl;
    try (split; [discriminate | intros [=]]); try tauto.
  - rewrite Bool.eqb_true_iff. split; congruence.
  - destruct x as [|n|z Hz]; [congruence| |]; destruct x0 as [|n0|z0 Hz0]; simpl;
      try (split; [discriminate | intros [=]]).
    + rewrite Bool.eqb_true_iff. split; congruence.
    + rewrite Z.eqb_eq. split.
      * intros E. f_equal. now apply Int_eq.
      * intros [= E]. exact E.
  - rewrite String.eqb_eq. split; congruence.
Qed.

(** X2: on primitives other than [NaN], [diff] reports nothing exactly
    when the two values are identical or both are nullish. *)
Theorem diff_primitives_exact (a b : value) (name : string) :
  isPrimitive a = true -> isPrimitive b = true -> a <> VNum NaN ->
  diff a b name = VNull <-> a = b \/ (nullish a = true /\ nullish b = true).
Proof.
  intros Ha Hb Hnan.
  destruct (nullish a && nullish b) eqn:Hnull.
  { apply andb_true_iff in Hnull. split; [tauto|]. intros _.
    rewrite diff_unfold. unfold diff_body.
    destruct Hnull as [-> ->]. reflexivity. }
  destruct (String.eqb_spec (typeof a) (typeof b)) as [Ht|Ht].
  - assert (Hna : nullish a = false).
    { destruct a, b; try discriminate Ht; try discriminate Hnull;
        try discriminate Ha; try discriminate Hb; reflexivity. }
    rewrite diff_primitives; try assumption.
    2:{ destruct a; try discriminate Ha; reflexivity. }
    pose proof (strict_equal_eq a b Ha Hnan) as E.
    destruct (strict_equal a b).
    + split; [intros _; left; now apply E | reflexivity].
    + split; [discriminate|]. intros [Heq|[H1 _]].
      * apply E in Heq. discriminate Heq.
      * congruence.
  - split.
    + intros H. rewrite diff_unfold in H. unfold diff_body in H.
      rewrite Hnull in H.
      destruct (String.eqb_spec (typeof a) (typeof b)); [contradiction|].
      discriminate H.
    + intros [->|[H1 H2]]; [contradiction|].
      rewrite H1, H2 in Hnull. discriminate Hnull.
Qed.

Lemma diff_primitives_exact_witness :
  diff (VStr "a") (VStr "a") "n" = VNull
  /\ diff (num 1) (VStr "1") "n" <> VNull.
Proof.
  split.
  - apply (proj2 (diff_primitives_exact (VStr "a") (VStr "a") "n"
                    eq_refl eq_refl ltac:(discriminate))).
    left. reflexivity.
  - intros H.
    apply (proj1 (diff_primitives_exact (num 1) (VStr "1") "n"
                    eq_refl eq_refl ltac:(discriminate))) in H.
    destruct H as [H|[H _]]; discriminate H.
Defined.

(** *** Key order *)

Lemma assoc_Some_In (ps : list (string * value)) (k : string) (v : value) :
  assoc k ps = Some v -> In (k, v) ps.
Proof.
  induction ps as [|[k' v'] ps IH]; simpl; [discriminate|].
  destruct (String.eqb_spec k' k) as [->|_].
  - intros [= ->]. now left.
  - intros H. right. now apply IH.
Qed.

Lemma assoc_None_notin (ps : list (string * value)) (k : string) :
  assoc k ps = None -> ~ In k (map fst ps).
Proof.
  induction ps as [|[k' v'] ps IH]; simpl; [tauto|].
  destruct (String.eqb_spec k' k) as [->|Hne]; [discriminate|].
  intros H [E|Hin]; [contradiction | now apply IH].
Qed.

Lemma assoc_In_NoDup (ps : list (string * value)) (k : string) (v : value) :
  NoDup (map fst ps) -> In (k, v) ps -> assoc k ps = Some v.
Proof.
  induction ps as [|[k' v'] ps IH]; simpl; [tauto|].
  intros Hnd [[= -> ->]|Hin].
  - now rewrite String.eqb_refl.
  - inversion Hnd as [|? ? Hk Hnd']; subst.
    destruct (String.eqb_spec k' k) as [->|_].
    + exfalso. apply Hk. apply (in_map fst) in Hin. exact Hin.
    + now apply IH.
Qed.

(** Lookup does not depend on the order in which an object lists its
    properties. *)
Lemma get_Permutation (ps ps' : list (string * value)) (k : string) :
  NoDup (map fst ps) -> Permutation ps ps' ->
  get (VObj ps) k = get (VObj ps') k.
Proof.
  intros Hnd Hp. simpl.
  assert (Hnd' : NoDup (map fst ps')).
  { eapply Permutation_NoDup; [|exact Hnd]. now apply Permutation_map. }
  destruct (assoc k ps) as [v|] eqn:E.
  - apply assoc_Some_In in E. apply (Permutation_in _ Hp) in E.
    now rewrite (assoc_In_NoDup ps' k v Hnd' E).
  - destruct (assoc k ps') as [v'|] eqn:E'; [|reflexivity].
    apply assoc_Some_In in E'. apply (Permutation_in _ (Permutation_sym Hp)) in E'.
    rewrite (assoc_In_NoDup ps k v' Hnd E') in E. discriminate E.
Qed.

Lemma keys_Permutation (ps ps' : list (string * value)) (k : string) :
  Permutation ps ps' ->
  In k (Object_keys (VObj ps)) <-> In k (Object_keys (VObj ps')).
Proof.
  intros Hp. simpl. split; apply Permutation_in.
  - now apply Permutation_map.
  - now apply Permutation_map, Permutation_sym.
Qed.

Lemma object_entries_Permutation (ps ps' qs qs' : list (string * value)) :
  NoDup (map fst ps) -> NoDup (map fst qs) ->
  Permutation ps ps' -> Permutation qs qs' ->
  object_entries (VObj ps) (VObj qs) = [] ->
  object_entries (VObj ps') (VObj qs') = [].
Proof.
  intros Hp Hq Pp Pq H.
  apply object_entries_nil in H. destruct H as (H1 & H2 & H3).
  apply object_entries_nil. repeat split.
  - intros k Hk. apply (keys_Permutation ps ps' k Pp), H1.
    now apply (keys_Permutation qs qs' k Pq).
  - intros k Hk. apply (keys_Permutation qs qs' k Pq), H2.
    now apply (keys_Permutation ps ps' k Pp).
  - intros k Hk Hk'.
    rewrite <- (get_Permutation ps ps' k Hp Pp).
    rewrite <- (get_Permutation qs qs' k Hq Pq).
    apply H3.
    + now apply (keys_Permutation ps ps' k Pp).
    + now apply (keys_Permutation qs qs' k Pq).
Qed.

(** X3: whether two objects differ does not depend on the order in which
    either of them lists its properties. *)
Theorem diff_object_key_order (ps ps' qs qs' : list (string * value))
  (name : string) :
  NoDup (map fst ps) -> NoDup (map fst qs) ->
  Permutation ps ps' -> Permutation qs qs' ->
  diff (VObj ps) (VObj qs) name = VNull
  <-> diff (VObj ps') (VObj qs') name = VNull.
Proof.
  intros Hp Hq Pp Pq.
  rewrite !diff_objects_null by reflexivity.
  split.
  - now apply object_entries_Permutation.
  - apply object_entries_Permutation; try now apply Permutation_sym.
    + eapply Permutation_NoDup; [|exact Hp]. now apply Permutation_map.
    + eapply Permutation_NoDup; [|exact Hq]. now apply Permutation_map.
Qed.

Lemma diff_object_key_order_witness :
  diff (VObj [("b", num 2); ("a", VArr [num 1])])
       (VObj [("a", VArr [num 1]); ("b", num 2)]) "o" = VNull.
Proof.
  apply (proj1 (diff_object_key_order
                  [("a", VArr [num 1]); ("b", num 2)]
                  [("b", num 2); ("a", VArr [num 1])]
                  [("a", VArr [num 1]); ("b", num 2)]
                  [("a", VArr [num 1]); ("b", num 2)] "o"
                  ltac:(repeat constructor; simpl; intuition discriminate)
                  ltac:(repeat constructor; simpl; intuition discriminate)
                  (perm_swap _ _ _) (Permutation_refl _))).
  reflexivity.
Defined.

(** *** Arrays as sets *)

Lemma serialized_in_same (x : value) (ys ys' : list value) :
  (forall y, In y ys <-> In y ys') ->
  serialized_in x ys = serialized_in x ys'.
Proof.
  intros H. unfold serialized_in. apply eq_true_iff_eq.
  rewrite !existsb_exists. split; intros (y & Hy & E); exists y;
    (split; [now apply H | exact E]).
Qed.

Lemma only_in_nil_same (xs xs' ys ys' : list value) :
  (forall x, In x xs <-> In x xs') -> (forall y, In y ys <-> In y ys') ->
  only_in xs ys = [] -> only_in xs' ys' = [].
Proof.
  intros Hx Hy H. apply only_in_nil in H. apply only_in_nil.
  rewrite forallb_forall in *. intros x Hin.
  rewrite <- (serialized_in_same x ys ys' Hy). apply H. now apply Hx.
Qed.

(** X4: whether two arrays differ depends only on which elements each one
    holds, not on their order nor on how often they occur. *)
Theorem diff_array_as_set (xs xs' ys ys' : list value) (name : string) :
  (forall x, In x xs <-> In x xs') -> (forall y, In y ys <-> In y ys') ->
  diff (VArr xs) (VArr ys) name = VNull
  <-> diff (VArr xs') (VArr ys') name = VNull.
Proof.
  intros Hx Hy. rewrite !diff_arrays_null.
  split; intros [H1 H2]; split.
  - now apply (only_in_nil_same ys ys' xs xs').
  - now apply (only_in_nil_same xs xs' ys ys').
  - apply (only_in_nil_same ys' ys xs' xs); try assumption;
      intros z; symmetry; auto.
  - apply (only_in_nil_same xs' xs ys' ys); try assumption;
      intros z; symmetry; auto.
Qed.

Lemma diff_array_as_set_witness :
  diff (VArr [num 2; num 1; num 2]) (VArr [num 1; num 2]) "a" = VNull.
Proof.
  apply (proj1 (diff_array_as_set [num 1; num 2] [num 2; num 1; num 2]
                  [num 1; num 2] [num 1; num 2] "a"
                  ltac:(intros x; simpl; tauto) ltac:(intros y; tauto))).
  reflexivity.
Defined.

End DiffExtras.

(** ** Further properties of the validators *)

Module ValidatorExtras.
Import DocumentValidator ValidatorSpec NIESpec ValidatorFacts ValidatorProperties.
#[local] Open Scope list_scope.

(** *** Numerals *)

Lemma decimal_from (s : chars) (acc : Z) :
  fold_left (fun a c => (a * 10 + digit_value c)%Z) s acc
  = (acc * 10 ^ Z.of_nat (List.length s) + decimal s)%Z.
Proof.
  unfold decimal. revert acc. induction s as [|c s IH]; intros acc.
  - simpl. lia.
  - cbn [fold_left List.length]. rewrite IH, (IH (0 * 10 + digit_value c)%Z).
    rewrite Nat2Z.inj_succ, Z.pow_succ_r by lia. lia.
Qed.

Lemma decimal_app (a b : chars) :
  decimal (a ++ b) = (decimal a * 10 ^ Z.of_nat (List.length b) + decimal b)%Z.
Proof.
  unfold decimal at 1. rewrite fold_left_app. fold (decimal a).
  apply decimal_from.
Qed.

Lemma decimal_cons (c : ascii) (s : chars) :
  decimal (c :: s)
  = (digit_value c * 10 ^ Z.of_nat (List.length s) + decimal s)%Z.
Proof.
  change (c :: s) with ([c] ++ s). rewrite decimal_app.
  unfold decimal at 1. simpl. lia.
Qed.

(** *** NIE *)

Lemma is_XYZ_cases (p : ascii) :
  is_XYZ p = true -> p = "X"%char \/ p = "Y"%char \/ p = "Z"%char.
Proof.
  intros H. apply in_range_spec in H.
  rewrite <- (ascii_nat_embedding p).
  assert (E : nat_of_ascii p = 88 \/ nat_of_ascii p = 89 \/ nat_of_ascii p = 90)
    by lia.
  destruct E as [-> | [-> | ->]]; auto.
Qed.

(** What [^[XYZ][0-9]{7}[A-Z]$] accepts. *)
Lemma re_NIE_shape (n : chars) :
  test re_NIE n = true <->
  exists prefix digits letter,
    n = prefix :: digits ++ [letter] /\ is_XYZ prefix = true
    /\ List.length digits = 7 /\ all_digits digits /\ is_upper letter = true.
Proof.
  unfold re_NIE. rewrite test_exactly. split.
  - intros (Hlen & Hp & Hrest).
    destruct n as [|p n]; [simpl in Hlen; lia|].
    simpl in Hp. apply andb_true_iff in Hp. destruct Hp as [Hp _].
    change (skipn 1 (p :: n)) with n in Hrest.
    apply test_exactly in Hrest. destruct Hrest as (Hlen7 & Hd & Hrest).
    apply test_exactly in Hrest. destruct Hrest as (Hl & Hu & Hnil).
    apply test_nil in Hnil.
    destruct (singleton_shape is_upper (skipn 7 n) Hl Hu Hnil) as (c & Ec & Hc).
    exists p, (firstn 7 n), c. repeat split; try assumption.
    + f_equal. rewrite <- Ec. symmetry. apply firstn_skipn.
    + now apply firstn_length_le.
  - intros (p & ds & l & -> & Hp & Hlen & Hd & Hu).
    split; [simpl; lia|]. split; [simpl; now rewrite Hp|].
    change (skipn 1 (p :: ds ++ [l])) with (ds ++ [l]).
    apply test_exactly. rewrite length_app, (firstn_app_exact 7),
      (skipn_app_exact 7) by assumption.
    split; [simpl; lia|]. split; [assumption|].
    apply test_exactly. split; [simpl; lia|]. split; [simpl; now rewrite Hu|].
    reflexivity.
Qed.

Lemma prefixValue_digit (p : ascii) :
  is_XYZ p = true ->
  exists d, prefixValue (Some p) = [d] /\ is_digit d = true
            /\ digit_value d = prefix_digit p.
Proof.
  intros H. destruct (is_XYZ_cases p H) as [-> | [-> | ->]].
  - exists "0"%char. repeat split.
  - exists "1"%char. repeat split.
  - exists "2"%char. repeat split.
Qed.

(** The answer of [isValidNIE] on a well-formed normalized string. *)
Lemma isValidNIE_shape (s : string) (prefix : ascii) (digits : chars)
  (letter : ascii) :
  normal_form (list_ascii_of_string s) = prefix :: digits ++ [letter] ->
  is_XYZ prefix = true -> List.length digits = 7 -> all_digits digits ->
  is_upper letter = true ->
  isValidNIE (Str s)
  = Returns
      (char_strict_equal (Some letter)
         (nth_error DNI_LETTERS
            (Z.to_nat ((prefix_digit prefix * 10000000 + decimal digits)
                       mod 23)))).
Proof.
  intros En Hp Hlen Hd Hu. unfold isValidNIE. simpl falsy.
  destruct (String.eqb_spec s "") as [->|_]; [discriminate En|].
  cbn [normalize bind]. rewrite En.
  assert (Ht : test re_NIE (prefix :: digits ++ [letter]) = true).
  { apply re_NIE_shape. exists prefix, digits, letter. auto. }
  rewrite Ht. simpl negb. cbv iota.
  change (char_at (prefix :: digits ++ [letter]) 0) with (Some prefix).
  destruct (prefixValue_digit prefix Hp) as (d & Ed & Hdd & Hdv).
  rewrite Ed.
  assert (Es : slice (prefix :: digits ++ [letter]) 1 8 = digits).
  { unfold slice. change (skipn 1 (prefix :: digits ++ [letter]))
      with (digits ++ [letter]). now apply firstn_app_exact. }
  rewrite Es. change ([d] ++ digits) with (d :: digits).
  assert (Hall : all_digits (d :: digits)).
  { unfold all_digits in *. simpl. now rewrite Hdd. }
  rewrite parseInt_digits by (assumption || discriminate).
  rewrite decimal_cons, Hlen, Hdv.
  change (10 ^ Z.of_nat 7)%Z with 10000000%Z.
  pose proof (decimal_nonneg digits Hd) as Hnn.
  assert (0 <= prefix_digit prefix)%Z.
  { destruct (is_XYZ_cases prefix Hp) as [-> | [-> | ->]]; vm_compute; congruence. }
  rewrite Z.rem_mod_nonneg by lia.
  rewrite (char_at_nonneg DNI_LETTERS) by (apply Z.mod_pos_bound; lia).
  rewrite char_at_nonneg by lia.
  replace (Z.to_nat 8) with (S (List.length digits))
    by (rewrite Hlen; reflexivity).
  cbn [nth_error]. rewrite nth_error_app2 by lia.
  rewrite Nat.sub_diag. reflexivity.
Qed.

(** X5: [isValidNIE] answers [true] exactly on strings whose normal form is
    X, Y or Z, seven digits and a capital letter, the letter being the one
    the DNI table holds for the number read with 0, 1 or 2 in place of the
    leading letter; on every other input it answers [false]. *)
Theorem isValidNIE_exact :
  (forall nie : input,
      isValidNIE nie = Returns true <->
      exists normalized,
        normalize nie = Returns normalized /\ NIE_valid normalized)
  /\ (forall nie : input,
        isValidNIE nie = Returns true \/ isValidNIE nie = Returns false)
  /\ isValidNIE (Str "X1234567L") = Returns true
  /\ isValidNIE (Str "X1234567A") = Returns false.
Proof.
  split; [|split; [|split; reflexivity]].
  2:{ intros nie. apply returns_true_or_false, isValidNIE_returns. }
  intros nie. split.
  - intros H. destruct nie as [| |s]; try discriminate H.
    exists (normal_form (list_ascii_of_string s)). split; [reflexivity|].
    assert (Ht : test re_NIE (normal_form (list_ascii_of_string s)) = true).
    { unfold isValidNIE in H. cbn [normalize bind] in H.
      destruct (falsy (Str s)); [discriminate H|].
      destruct (test re_NIE _); [reflexivity | discriminate H]. }
    apply re_NIE_shape in Ht. destruct Ht as (p & ds & l & En & Hp & Hlen & Hd & Hu).
    rewrite (isValidNIE_shape s p ds l En Hp Hlen Hd Hu) in H.
    injection H as H. apply char_strict_equal_Some in H.
    exists p, ds, l. auto 10.
  - intros (n & Hn & p & ds & l & En & Hp & Hlen & Hd & Hu & Hl).
    apply normalize_Returns in Hn. destruct Hn as (s & -> & ->).
    rewrite (isValidNIE_shape s p ds l En Hp Hlen Hd Hu). f_equal.
    now apply char_strict_equal_Some.
Qed.

Lemma isValidNIE_exact_witness : isValidNIE (Str "y-1234567-x") = Returns true.
Proof.
  apply (proj1 isValidNIE_exact). exists (list_ascii_of_string "Y1234567X").
  split; [reflexivity|].
  exists "Y"%char, (list_ascii_of_string "1234567"), "X"%char.
  split; [reflexivity|]. split; [reflexivity|]. split; [reflexivity|].
  split; [reflexivity|]. split; reflexivity.
Defined.

(** *** Normalization *)

Lemma toUpperCase_char_clean (c : ascii) :
  is_hyphen_or_space c = false ->
  is_hyphen_or_space (toUpperCase_char c) = false
  /\ is_lower (toUpperCase_char c) = false.
Proof.
  destruct c as [[] [] [] [] [] [] [] []]; vm_compute; intros H;
    try discriminate H; split; reflexivity.
Qed.

Lemma toUpperCase_char_fixed (c : ascii) :
  is_lower c = false -> toUpperCase_char c = c.
Proof. intros H. unfold toUpperCase_char. now rewrite H. Qed.

Lemma normalize_clean (s : chars) (c : ascii) :
  In c (normal_form s) ->
  is_hyphen_or_space c = false /\ is_lower c = false.
Proof.
  unfold normal_form. intros H. apply in_map_iff in H.
  destruct H as (c0 & <- & H0). apply filter_In in H0. destruct H0 as [_ H0].
  apply toUpperCase_char_clean. now destruct (is_hyphen_or_space c0).
Qed.

(** A string free of hyphens, white space and lower-case letters is its own
    normal form. *)
Lemma normalize_fixed (s : chars) :
  (forall c, In c s -> is_hyphen_or_space c = false /\ is_lower c = false) ->
  normal_form s = s.
Proof.
  induction s as [|c s IH]; intros H; [reflexivity|].
  destruct (H c (or_introl eq_refl)) as [H1 H2].
  unfold normal_form in *. simpl. rewrite H1. simpl.
  rewrite (toUpperCase_char_fixed c H2). f_equal.
  apply IH. intros d Hd. apply H. now right.
Qed.

Lemma list_ascii_round_trip (l : chars) :
  list_ascii_of_string (string_of_list_ascii l) = l.
Proof. apply list_ascii_of_string_of_list_ascii. Qed.

(** X7: [normalize] is idempotent, and what it returns holds no hyphen, no
    white space and no lower-case letter. *)
Theorem normalize_idempotent (value : input) (normalized : chars) :
  normalize value = Returns normalized ->
  normalize (Str (string_of_list_ascii normalized)) = Returns normalized
  /\ forall c, In c normalized ->
       is_hyphen_or_space c = false /\ is_lower c = false.
Proof.
  intros H. apply normalize_Returns in H. destruct H as (s & -> & ->).
  split; [|apply normalize_clean].
  cbn [normalize]. rewrite list_ascii_round_trip. f_equal.
  apply normalize_fixed, normalize_clean.
Qed.

Lemma normalize_idempotent_witness :
  normalize (Str "ES912100") = Returns (list_ascii_of_string "ES912100").
Proof.
  apply (proj1 (normalize_idempotent (Str "es91 2100")
                  (list_ascii_of_string "ES912100") eq_refl)).
Defined.



(** *** The DNI check letter *)

Lemma digit_or_upper_clean (c : ascii) :
  is_digit c = true \/ is_upper c = true ->
  is_hyphen_or_space c = false /\ is_lower c = false.
Proof.
  intros H. unfold is_hyphen_or_space, is_lower.
  assert (Hr : 48 <= nat_of_ascii c <= 90).
  { destruct H as [H|H]; apply in_range_spec in H; lia. }
  rewrite (in_range_false 9 13), (in_range_false 97 122) by lia.
  destruct (Nat.eqb_spec (nat_of_ascii c) 45); [lia|].
  destruct (Nat.eqb_spec (nat_of_ascii c) 32); [lia|]. split; reflexivity.
Qed.

(** Digits followed by one capital letter are their own normal form. *)
Lemma normal_form_document (digits : chars) (letter : ascii) :
  all_digits digits -> is_upper letter = true ->
  normal_form (digits ++ [letter]) = digits ++ [letter].
Proof.
  intros Hd Hu. apply normalize_fixed. intros c Hc.
  apply digit_or_upper_clean. apply in_app_or in Hc. destruct Hc as [Hc|[<-|[]]].
  - left. unfold all_digits in Hd. rewrite forallb_forall in Hd. now apply Hd.
  - now right.
Qed.

Lemma isValidDNI_document (digits : chars) (letter : ascii) :
  List.length digits = 8 -> all_digits digits -> is_upper letter = true ->
  isValidDNI (Str (string_of_list_ascii (digits ++ [letter])))
  = Returns (char_strict_equal (Some letter)
               (nth_error DNI_LETTERS (Z.to_nat (decimal digits mod 23)))).
Proof.
  intros Hlen Hd Hu. apply isValidDNI_shape; try assumption.
  rewrite list_ascii_round_trip. now apply normal_form_document.
Qed.

(** The table has a capital letter, other than I, O and U, at each of the
    23 indices. *)
Lemma DNI_LETTERS_total (i : nat) :
  i < 23 ->
  exists letter,
    nth_error DNI_LETTERS i = Some letter /\ is_upper letter = true
    /\ letter <> "I"%char /\ letter <> "O"%char /\ letter <> "U"%char.
Proof.
  intros H.
  do 23 (destruct i as [|i];
         [eexists; split; [reflexivity|];
          split; [reflexivity|]; repeat split; discriminate|]).
  lia.
Qed.

Lemma DNI_LETTERS_NoDup : NoDup DNI_LETTERS.
Proof.
  apply (NoDup_map_inv nat_of_ascii). vm_compute.
  repeat constructor; simpl; lia.
Qed.

Lemma DNI_LETTERS_injective (i j : nat) (letter : ascii) :
  nth_error DNI_LETTERS i = Some letter ->
  nth_error DNI_LETTERS j = Some letter -> i = j.
Proof.
  intros Hi Hj.
  apply (proj1 (NoDup_nth_error DNI_LETTERS) DNI_LETTERS_NoDup).
  - apply nth_error_Some. congruence.
  - congruence.
Qed.

Lemma mod_23_index (z : Z) : Z.to_nat (z mod 23) < 23.
Proof. pose proof (Z.mod_pos_bound z 23 ltac:(lia)). lia. Qed.

(** X8: every eight-digit number has exactly one check letter: among the
    capital letters, [isValidDNI] accepts that one and no other, and it is
    never I, O or U.  The letters for the remainders 0 to 22 are
    T R W A G M Y F P D X B N J Z S Q V H L C K E. *)
Theorem DNI_check_letter :
  (forall digits : chars,
      List.length digits = 8 -> all_digits digits ->
      exists letter,
        is_upper letter = true
        /\ letter <> "I"%char /\ letter <> "O"%char /\ letter <> "U"%char
        /\ forall l, is_upper l = true ->
             (isValidDNI (Str (string_of_list_ascii (digits ++ [l])))
              = Returns true <-> l = letter))
  /\ map (fun dni => isValidDNI (Str dni))
        ["00000000T"; "00000001R"; "00000002W"; "00000003A"; "00000004G";
         "00000005M"; "00000006Y"; "00000007F"; "00000008P"; "00000009D";
         "00000010X"; "00000011B"; "00000012N"; "00000013J"; "00000014Z";
         "00000015S"; "00000016Q"; "00000017V"; "00000018H"; "00000019L";
         "00000020C"; "00000021K"; "00000022E"]
     = repeat (Returns true) 23.
Proof.
  split; [|reflexivity].
  intros digits Hlen Hd.
  destruct (DNI_LETTERS_total _ (mod_23_index (decimal digits)))
    as (letter & Hnth & Hu & HI & HO & HU).
  exists letter. do 4 (split; [assumption|]).
  intros l Hl. split.
  - intros H. rewrite (isValidDNI_document digits l Hlen Hd Hl) in H.
    injection H as H. apply char_strict_equal_Some in H. congruence.
  - intros ->. rewrite (isValidDNI_document digits letter Hlen Hd Hu).
    f_equal. now apply char_strict_equal_Some.
Qed.

Lemma DNI_check_letter_witness :
  exists letter,
    forall l, is_upper l = true ->
      (isValidDNI (Str (string_of_list_ascii
                          (list_ascii_of_string "12345678" ++ [l])))
       = Returns true <-> l = letter).
Proof.
  destruct (proj1 DNI_check_letter (list_ascii_of_string "12345678")
              eq_refl eq_refl) as (letter & _ & _ & _ & _ & H).
  exists letter. exact H.
Defined.

(** *** Errors that the DNI letter detects *)

Lemma divide_23_cancel_10 (x : Z) : (23 | 10 * x)%Z -> (23 | x)%Z.
Proof. intros [q Hq]. exists (7 * q - 3 * x)%Z. lia. Qed.

Lemma divide_23_cancel_pow10 (k : nat) (x : Z) :
  (23 | x * 10 ^ Z.of_nat k)%Z -> (23 | x)%Z.
Proof.
  induction k as [|k IH]; intros H.
  - simpl in H. now rewrite Z.mul_1_r in H.
  - apply IH. apply divide_23_cancel_10.
    rewrite Nat2Z.inj_succ, Z.pow_succ_r in H by lia.
    replace (10 * (x * 10 ^ Z.of_nat k))%Z
      with (x * (10 * 10 ^ Z.of_nat k))%Z by lia.
    exact H.
Qed.

Lemma mod_23_eq_divide (a b : Z) :
  Z.to_nat (a mod 23) = Z.to_nat (b mod 23) -> (23 | a - b)%Z.
Proof.
  intros H.
  pose proof (Z.mod_pos_bound a 23 ltac:(lia)).
  pose proof (Z.mod_pos_bound b 23 ltac:(lia)).
  assert (E : (a mod 23 = b mod 23)%Z) by lia.
  exists (a / 23 - b / 23)%Z.
  pose proof (Z.div_mod a 23 ltac:(lia)). pose proof (Z.div_mod b 23 ltac:(lia)).
  lia.
Qed.

(** What [isValidDNI] has checked when it answers [true]. *)
Lemma isValidDNI_true_inv (s : string) :
  isValidDNI (Str s) = Returns true ->
  exists digits letter,
    normal_form (list_ascii_of_string s) = digits ++ [letter]
    /\ List.length digits = 8 /\ all_digits digits /\ is_upper letter = true
    /\ nth_error DNI_LETTERS (Z.to_nat (decimal digits mod 23)) = Some letter.
Proof.
  intros H.
  assert (Ht : test re_DNI (normal_form (list_ascii_of_string s)) = true).
  { unfold isValidDNI in H. cbn [normalize bind] in H.
    destruct (falsy (Str s)); [discriminate H|].
    destruct (test re_DNI _); [reflexivity | discriminate H]. }
  apply re_DNI_shape in Ht. destruct Ht as (ds & l & En & Hlen & Hd & Hu).
  rewrite (isValidDNI_shape s ds l En Hlen Hd Hu) in H.
  injection H as H. apply char_strict_equal_Some in H.
  exists ds, l. auto.
Qed.

(** A digit of a string that ends with a letter sits before the letter. *)
Lemma digit_before_letter (P Q digits : chars) (c letter : ascii) :
  P ++ c :: Q = digits ++ [letter] -> c <> letter ->
  exists Q', Q = Q' ++ [letter] /\ digits = P ++ c :: Q'.
Proof.
  intros E Hne.
  destruct (exists_last (l := c :: Q) ltac:(discriminate)) as (R & x & ER).
  rewrite ER, app_assoc in E. apply app_inj_tail in E. destruct E as [E ->].
  destruct R as [|r R]; simpl in ER.
  - injection ER as -> ->. congruence.
  - injection ER as <- ->. exists R. split; [reflexivity | now symmetry].
Qed.

Lemma digit_ne_upper (c l : ascii) :
  is_digit c = true -> is_upper l = true -> c <> l.
Proof.
  intros Hc Hl ->. rewrite (digit_not_upper l Hc) in Hl. discriminate Hl.
Qed.

(** Two digit strings whose numbers differ modulo 23 cannot both be valid
    with the same letter. *)
Lemma isValidDNI_other_number (s : string) (digits digits' : chars)
  (letter : ascii) :
  nth_error DNI_LETTERS (Z.to_nat (decimal digits mod 23)) = Some letter ->
  normal_form (list_ascii_of_string s) = digits' ++ [letter] ->
  List.length digits' = 8 -> all_digits digits' -> is_upper letter = true ->
  ~ (23 | decimal digits - decimal digits')%Z ->
  isValidDNI (Str s) = Returns false.
Proof.
  intros Hnth En Hlen Hd Hu Hdiv.
  rewrite (isValidDNI_shape s digits' letter En Hlen Hd Hu). f_equal.
  destruct (char_strict_equal _ _) eqn:E; [|reflexivity].
  apply char_strict_equal_Some in E. exfalso. apply Hdiv.
  apply mod_23_eq_divide. now apply (DNI_LETTERS_injective _ _ letter).
Qed.

Lemma all_digits_cons (c : ascii) (s : chars) :
  all_digits (c :: s) <-> is_digit c = true /\ all_digits s.
Proof. unfold all_digits. simpl. apply andb_true_iff. Qed.

(** X9: a DNI that [isValidDNI] accepts is refused once any one of its
    digits is replaced by another digit. *)
Theorem DNI_single_digit (before after : string) (c c' : ascii) :
  is_digit c = true -> is_digit c' = true -> c <> c' ->
  isValidDNI (Str (before ++ String c after)) = Returns true ->
  isValidDNI (Str (before ++ String c' after)) = Returns false.
Proof.
  intros Hc Hc' Hne Hvalid.
  apply isValidDNI_true_inv in Hvalid.
  destruct Hvalid as (ds & l & En & Hlen & Hd & Hu & Hnth).
  rewrite list_ascii_of_string_app, normalize_app in En.
  change (list_ascii_of_string (String c after))
    with (c :: list_ascii_of_string after) in En.
  rewrite normalize_digit in En by assumption.
  destruct (digit_before_letter _ _ _ _ _ En (digit_ne_upper c l Hc Hu))
    as (Q & EQ & ->).
  apply (isValidDNI_other_number _ _
           (normal_form (list_ascii_of_string before) ++ c' :: Q) l Hnth).
  - rewrite list_ascii_of_string_app, normalize_app.
    change (list_ascii_of_string (String c' after))
      with (c' :: list_ascii_of_string after).
    rewrite normalize_digit, EQ by assumption.
    now rewrite <- app_assoc.
  - rewrite length_app in Hlen |- *. exact Hlen.
  - apply all_digits_app in Hd. destruct Hd as [HP HQ].
    apply all_digits_cons in HQ. destruct HQ as [_ HQ].
    apply all_digits_app. split; [assumption|]. now apply all_digits_cons.
  - assumption.
  - rewrite !decimal_app, !decimal_cons.
    intros Hdiv.
    assert (H23 : (23 | (digit_value c - digit_value c')
                        * 10 ^ Z.of_nat (List.length Q))%Z).
    { destruct Hdiv as [q Hq]. exists q. rewrite <- Hq. simpl List.length. lia. }
    apply divide_23_cancel_pow10 in H23. destruct H23 as [q Hq].
    pose proof (digit_value_range c Hc). pose proof (digit_value_range c' Hc').
    assert (digit_value c <> digit_value c').
    { intros E. apply Hne. now apply digit_value_inj. }
    lia.
Qed.

Lemma DNI_single_digit_witness :
  isValidDNI (Str "12345678-Z") = Returns true
  /\ isValidDNI (Str "12345978-Z") = Returns false.
Proof.
  split; [reflexivity|].
  apply (DNI_single_digit "12345" "78-Z" "6"%char "9"%char);
    try reflexivity.
  discriminate.
Defined.

(** X10: a DNI that [isValidDNI] accepts is refused once two neighbouring
    digits that differ are exchanged. *)
Theorem DNI_transposition (before after : string) (a b : ascii) :
  is_digit a = true -> is_digit b = true -> a <> b ->
  isValidDNI (Str (before ++ String a (String b after))) = Returns true ->
  isValidDNI (Str (before ++ String b (String a after))) = Returns false.
Proof.
  intros Ha Hb Hne Hvalid.
  apply isValidDNI_true_inv in Hvalid.
  destruct Hvalid as (ds & l & En & Hlen & Hd & Hu & Hnth).
  rewrite list_ascii_of_string_app, normalize_app in En.
  change (list_ascii_of_string (String a (String b after)))
    with (a :: b :: list_ascii_of_string after) in En.
  rewrite !normalize_digit in En by assumption.
  destruct (digit_before_letter _ _ _ _ _ En (digit_ne_upper a l Ha Hu))
    as (Q1 & EQ1 & ->).
  destruct Q1 as [|b' Q]; simpl in EQ1.
  { injection EQ1 as -> _. exfalso. now apply (digit_ne_upper l l Hb Hu). }
  injection EQ1 as <- EQ.
  apply (isValidDNI_other_number _ _
           (normal_form (list_ascii_of_string before) ++ b :: a :: Q) l Hnth).
  - rewrite list_ascii_of_string_app, normalize_app.
    change (list_ascii_of_string (String b (String a after)))
      with (b :: a :: list_ascii_of_string after).
    rewrite !normalize_digit, EQ by assumption.
    now rewrite <- app_assoc.
  - rewrite length_app in Hlen |- *. exact Hlen.
  - apply all_digits_app in Hd. destruct Hd as [HP HQ].
    apply all_digits_cons in HQ. destruct HQ as [_ HQ].
    apply all_digits_cons in HQ. destruct HQ as [_ HQ].
    apply all_digits_app. split; [assumption|].
    apply all_digits_cons. split; [assumption|]. now apply all_digits_cons.
  - assumption.
  - rewrite !decimal_app, !decimal_cons.
    intros Hdiv.
    assert (H23 : (23 | (9 * (digit_value a - digit_value b))
                        * 10 ^ Z.of_nat (List.length Q))%Z).
    { destruct Hdiv as [q Hq]. exists q. rewrite <- Hq. simpl List.length.
      rewrite !Nat2Z.inj_succ, !Z.pow_succ_r by lia. ring. }
    apply divide_23_cancel_pow10 in H23. destruct H23 as [q Hq].
    pose proof (digit_value_range a Ha). pose proof (digit_value_range b Hb).
    assert (digit_value a <> digit_value b).
    { intros E. apply Hne. now apply digit_value_inj. }
    lia.
Qed.

Lemma DNI_transposition_witness :
  isValidDNI (Str "12345678Z") = Returns true
  /\ isValidDNI (Str "12354678Z") = Returns false.
Proof.
  split; [reflexivity|].
  apply (DNI_transposition "123" "678Z" "4"%char "5"%char);
    try reflexivity.
  discriminate.
Defined.

(** *** A blind spot of the SSN checksum *)

Lemma normal_form_digits (s : chars) : all_digits s -> normal_form s = s.
Proof.
  intros H. apply normalize_fixed. intros c Hc. apply digit_or_upper_clean.
  left. unfold all_digits in H. rewrite forallb_forall in H. now apply H.
Qed.

Lemma decimal_bound (s : chars) :
  all_digits s -> (0 <= decimal s < 10 ^ Z.of_nat (List.length s))%Z.
Proof.
  induction s as [|c s IH]; intros H.
  - vm_compute. split; congruence.
  - apply all_digits_cons in H. destruct H as [Hc Hs].
    rewrite decimal_cons. cbn [List.length].
    rewrite Nat2Z.inj_succ, Z.pow_succ_r by lia.
    pose proof (digit_value_range c Hc). specialize (IH Hs). nia.
Qed.

(** X11: with province 43 the checksum cannot tell a sequence number that
    starts with 0 from the one that starts with 1 and continues alike: both
    get the same answer, because the multiplier changes from 10^7 to 10^8
    between them and 43 * 9 * 10^7 + 10^7 is a multiple of 97. *)
Theorem SSN_province_43_collision (tail checksum : chars) :
  List.length tail = 7 -> all_digits tail ->
  List.length checksum = 2 -> all_digits checksum ->
  isValidSpanishSSN
    (Str (string_of_list_ascii
            (list_ascii_of_string "430" ++ tail ++ checksum)))
  = isValidSpanishSSN
      (Str (string_of_list_ascii
              (list_ascii_of_string "431" ++ tail ++ checksum))).
Proof.
  intros Ht Hdt Hc Hdc.
  assert (Hd0 : all_digits (list_ascii_of_string "43"
                            ++ ("0"%char :: tail) ++ checksum)).
  { apply all_digits_app. split; [reflexivity|]. apply all_digits_app.
    split; [|assumption]. now apply all_digits_cons. }
  assert (Hd1 : all_digits (list_ascii_of_string "43"
                            ++ ("1"%char :: tail) ++ checksum)).
  { apply all_digits_app. split; [reflexivity|]. apply all_digits_app.
    split; [|assumption]. now apply all_digits_cons. }
  rewrite (isValidSpanishSSN_shape _ (list_ascii_of_string "43")
             ("0"%char :: tail) checksum);
    try assumption; try (simpl; lia).
  2:{ rewrite list_ascii_round_trip. now apply normal_form_digits. }
  rewrite (isValidSpanishSSN_shape _ (list_ascii_of_string "43")
             ("1"%char :: tail) checksum);
    try assumption; try (simpl; lia).
  2:{ rewrite list_ascii_round_trip. now apply normal_form_digits. }
  f_equal. rewrite !decimal_cons, Ht.
  change (decimal (list_ascii_of_string "43")) with 43%Z.
  change (digit_value "0") with 0%Z. change (digit_value "1") with 1%Z.
  change (10 ^ Z.of_nat 7)%Z with 10000000%Z.
  pose proof (decimal_bound tail Hdt) as Hb. rewrite Ht in Hb.
  change (10 ^ Z.of_nat 7)%Z with 10000000%Z in Hb.
  unfold SSN_check. cbn [Z.ltb Z.compare orb].
  destruct (Z.ltb_spec (0 * 10000000 + decimal tail) 10000000); [|lia].
  destruct (Z.ltb_spec (1 * 10000000 + decimal tail) 10000000); [lia|].
  rewrite !Z.rem_mod_nonneg by lia.
  replace (43 * 100000000 + (1 * 10000000 + decimal tail))%Z
    with (43 * 10000000 + (0 * 10000000 + decimal tail) + 40000000 * 97)%Z
    by lia.
  now rewrite Z_mod_plus_full.
Qed.

Lemma SSN_province_43_collision_witness :
  isValidSpanishSSN (Str "430012345642") = Returns true
  /\ isValidSpanishSSN (Str "431012345642") = Returns true.
Proof.
  split; [reflexivity|].
  pose proof (SSN_province_43_collision
                (list_ascii_of_string "0123456") (list_ascii_of_string "42")
                eq_refl eq_refl eq_refl eq_refl) as H.
  exact (eq_trans (eq_sym H) eq_refl).
Defined.

(** *** IBAN check digits that differ by 97 *)

Lemma normalize_upper (c : ascii) (s : chars) :
  is_upper c = true -> normal_form (c :: s) = c :: normal_form s.
Proof.
  intros H. destruct (digit_or_upper_clean c (or_intror H)) as [H1 H2].
  unfold normal_form. simpl. rewrite H1. simpl.
  now rewrite (toUpperCase_char_fixed c H2).
Qed.

Lemma same_answer (x y : outcome bool) :
  (exists b, x = Returns b) -> (exists b, y = Returns b) ->
  (x = Returns true <-> y = Returns true) -> x = y.
Proof.
  intros [[|] ->] [[|] ->] H; try reflexivity.
  - symmetry. now apply H.
  - now apply H.
Qed.

Lemma decimal_two (d1 d2 : ascii) :
  decimal [d1; d2] = (digit_value d1 * 10 + digit_value d2)%Z.
Proof. unfold decimal. simpl. lia. Qed.

(** The answer of [isValidIBAN] on a well-formed normalized string. *)
Lemma isValidIBAN_wellformed (s : string) (u1 u2 d1 d2 : ascii) (rest : chars) :
  normal_form (list_ascii_of_string s) = u1 :: u2 :: d1 :: d2 :: rest ->
  test re_IBAN (u1 :: u2 :: d1 :: d2 :: rest) = true ->
  isValidIBAN (Str s) = Returns true <->
  ((decimal (flat_map letter_to_number (rest ++ [u1; u2])) * 100
    + (digit_value d1 * 10 + digit_value d2)) mod 97 = 1)%Z.
Proof.
  intros En Ht. rewrite isValidIBAN_true, En.
  pose proof (mod97_fold_decimal _ 0%Z (IBAN_numeric_digits _ Ht) ltac:(lia)) as E.
  change (0 mod 97)%Z with 0%Z in E. rewrite E. fold (decimal (IBAN_numeric
    (u1 :: u2 :: d1 :: d2 :: rest))).
  assert (Hn : decimal (IBAN_numeric (u1 :: u2 :: d1 :: d2 :: rest))
               = (decimal (flat_map letter_to_number (rest ++ [u1; u2])) * 100
                  + (digit_value d1 * 10 + digit_value d2))%Z).
  { apply re_IBAN_shape in Ht.
    destruct Ht as (? & ? & ? & ? & ? & [= <- <- <- <- <-] & _ & _ & Hd1 & Hd2 & _).
    unfold IBAN_numeric. cbn [skipn firstn].
    replace (rest ++ [u1; u2; d1; d2]) with ((rest ++ [u1; u2]) ++ [d1; d2])
      by (now rewrite <- app_assoc).
    rewrite flat_map_app. cbn [flat_map].
    rewrite !letter_to_number_digit by assumption. cbn [app].
    rewrite decimal_app, decimal_two. reflexivity. }
  rewrite Hn. split.
  - intros [_ [= H]]. exact H.
  - intros H. split; [assumption | now rewrite H].
Qed.

(** X12: [isValidIBAN] gives the same answer to two IBANs that differ only
    in their check digits when these, read as two-digit numbers, differ by
    97 (00 and 97, 01 and 98, 02 and 99): the range of the check digits is
    not checked. *)
Theorem IBAN_check_digits_alias (u1 u2 d1 d2 e1 e2 : ascii) (rest : chars) :
  is_upper u1 = true -> is_upper u2 = true ->
  is_digit d1 = true -> is_digit d2 = true ->
  is_digit e1 = true -> is_digit e2 = true ->
  (digit_value e1 * 10 + digit_value e2
   = digit_value d1 * 10 + digit_value d2 + 97)%Z ->
  isValidIBAN (Str (string_of_list_ascii (u1 :: u2 :: d1 :: d2 :: rest)))
  = isValidIBAN (Str (string_of_list_ascii (u1 :: u2 :: e1 :: e2 :: rest))).
Proof.
  intros Hu1 Hu2 Hd1 Hd2 He1 He2 H97.
  apply same_answer; try apply isValidIBAN_returns.
  assert (En : forall x1 x2, is_digit x1 = true -> is_digit x2 = true ->
             normal_form (list_ascii_of_string
               (string_of_list_ascii (u1 :: u2 :: x1 :: x2 :: rest)))
             = u1 :: u2 :: x1 :: x2 :: normal_form rest).
  { intros x1 x2 H1 H2. rewrite list_ascii_round_trip.
    rewrite !normalize_upper by assumption.
    now rewrite !normalize_digit by assumption. }
  assert (Hshape : forall x1 x2 y1 y2,
             is_digit y1 = true -> is_digit y2 = true ->
             test re_IBAN (u1 :: u2 :: x1 :: x2 :: normal_form rest) = true ->
             test re_IBAN (u1 :: u2 :: y1 :: y2 :: normal_form rest) = true).
  { intros x1 x2 y1 y2 H1 H2 Ht. apply re_IBAN_shape in Ht.
    destruct Ht as (? & ? & ? & ? & ? & [= <- <- <- <- <-] & ? & ? & ? & ? & ? & ?).
    apply re_IBAN_shape. exists u1, u2, y1, y2, (normal_form rest). auto 10. }
  split; intros Hv.
  - assert (Ht : test re_IBAN (u1 :: u2 :: d1 :: d2 :: normal_form rest) = true).
    { apply isValidIBAN_true in Hv. rewrite En in Hv by assumption. tauto. }
    apply (isValidIBAN_wellformed _ _ _ _ _ _ (En d1 d2 Hd1 Hd2) Ht) in Hv.
    apply (isValidIBAN_wellformed _ _ _ _ _ _ (En e1 e2 He1 He2)
             (Hshape d1 d2 e1 e2 He1 He2 Ht)).
    rewrite H97, Z.add_assoc.
    rewrite <- (Z.mul_1_l 97) at 1. now rewrite Z_mod_plus_full.
  - assert (Ht : test re_IBAN (u1 :: u2 :: e1 :: e2 :: normal_form rest) = true).
    { apply isValidIBAN_true in Hv. rewrite En in Hv by assumption. tauto. }
    apply (isValidIBAN_wellformed _ _ _ _ _ _ (En e1 e2 He1 He2) Ht) in Hv.
    apply (isValidIBAN_wellformed _ _ _ _ _ _ (En d1 d2 Hd1 Hd2)
             (Hshape e1 e2 d1 d2 Hd1 Hd2 Ht)).
    rewrite H97, Z.add_assoc in Hv.
    rewrite <- (Z.mul_1_l 97) in Hv at 1. now rewrite Z_mod_plus_full in Hv.
Qed.

Lemma IBAN_check_digits_alias_witness :
  isValidIBAN (Str "ES0021000418450200000008") = Returns true
  /\ isValidIBAN (Str "ES9721000418450200000008") = Returns true.
Proof.
  split; [reflexivity|].
  pose proof (IBAN_check_digits_alias "E" "S" "0" "0" "9" "7"
                (list_ascii_of_string "21000418450200000008")
                eq_refl eq_refl eq_refl eq_refl eq_refl eq_refl eq_refl) as H.
  exact (eq_trans (eq_sym H) eq_refl).
Defined.

End ValidatorExtras.

(** ** Properties of [defer] *)

Module DeferredExtras.
Import DeferredPromise.

Section Deferred.
Context {T R : Type}.

Lemma perform_consistent (d : deferred T R) (c : call T R) :
  consistent d -> consistent (perform d c).
Proof.
  unfold consistent. destruct d as [s r j p]. simpl.
  intros (H1 & H2 & H3).
  destruct c; simpl; unfold resolve, reject; simpl;
    destruct s; simpl; try (repeat split; assumption);
    subst; destruct r, j, p; simpl in *; try discriminate; repeat split.
Qed.

Lemma perform_all_consistent (calls : list (call T R)) (d : deferred T R) :
  consistent d -> consistent (perform_all calls d).
Proof.
  revert d. induction calls as [|c calls IH]; intros d H; [exact H|].
  apply IH. now apply perform_consistent.
Qed.

(** X13: whatever calls of [resolve] and [reject] are made, in whatever
    order: [isSettled] is [isResolved || isRejected], [isResolved] and
    [isRejected] are never both true, the promise is pending exactly while
    [isSettled] is false, it is fulfilled exactly when [isResolved] is true
    and rejected exactly when [isRejected] is true. *)
Theorem defer_flags_consistent (calls : list (call T R)) :
  let d := perform_all calls defer in
  isSettled d = (isResolved d || isRejected d)
  /\ isResolved d && isRejected d = false
  /\ (promise_state d = Pending <-> isSettled d = false)
  /\ (isResolved d = true <-> exists value, promise_state d = Fulfilled value)
  /\ (isRejected d = true <-> exists reason, promise_state d = Rejected reason).
Proof.
  intros d.
  assert (H : consistent d).
  { apply perform_all_consistent. repeat split. }
  destruct H as (H1 & H2 & H3).
  split; [exact H1|]. split; [exact H2|].
  destruct (promise_state d) as [|v|r] eqn:E;
    destruct (isSettled d), (isResolved d), (isRejected d);
    simpl in *; try discriminate;
    (split; [split; congruence|]);
    (split; split; try congruence; try (intros [? ?]; congruence); eauto).
Qed.

Lemma resolve_settled (value : T) (d : deferred T R) :
  isSettled d = true -> resolve value d = d.
Proof. intros H. unfold resolve. now rewrite H. Qed.

Lemma reject_settled (reason : R) (d : deferred T R) :
  isSettled d = true -> reject reason d = d.
Proof. intros H. unfold reject. now rewrite H. Qed.

Lemma settled_stays (calls : list (call T R)) (d : deferred T R) :
  isSettled d = true -> perform_all calls d = d.
Proof.
  induction calls as [|c calls IH]; intros H; [reflexivity|].
  simpl. assert (E : perform d c = d).
  { destruct c; simpl; unfold resolve, reject; now rewrite H. }
  rewrite E. now apply IH.
Qed.


End Deferred.

Section WithTimeout.
Context {T R : Type}.
Variable Error : string -> R.

Lemma handle_all_own (events : list (event T R)) (t : timed T R) :
  own_isSettled (handle_all Error events t) = own_isSettled t
  /\ own_isResolved (handle_all Error events t) = own_isResolved t
  /\ own_isRejected (handle_all Error events t) = own_isRejected t
  /\ timeoutMessage (handle_all Error events t) = timeoutMessage t.
Proof.
  unfold handle_all. revert t.
  induction events as [|e events IH]; intros t; [now repeat split|].
  simpl. destruct (IH (handle Error t e)) as (H1 & H2 & H3 & H4).
  rewrite H1, H2, H3, H4.
  destruct e; simpl; try (now repeat split).
  destruct (timer_pending t); now repeat split.
Qed.

Lemma handle_all_settled (events : list (event T R)) (t : timed T R) :
  isSettled (inner t) = true ->
  inner (handle_all Error events t) = inner t.
Proof.
  unfold handle_all. revert t.
  induction events as [|e events IH]; intros t H; [reflexivity|].
  simpl. assert (E : inner (handle Error t e) = inner t).
  { destruct e; cbn [handle with_inner inner];
      rewrite ?resolve_settled, ?reject_settled by exact H;
      try reflexivity.
    destruct (timer_pending t); cbn [with_inner inner];
      rewrite ?reject_settled by exact H; reflexivity. }
  rewrite IH; rewrite E; [reflexivity|exact H].
Qed.

Lemma handle_all_cleared (events : list (event T R)) (t : timed T R) :
  timer_pending t = false ->
  inner (handle_all Error events t)
  = perform_all (explicit_calls events) (inner t).
Proof.
  unfold handle_all, perform_all. revert t.
  induction events as [|e events IH]; intros t H; [reflexivity|].
  simpl. rewrite IH.
  - destruct e; simpl; try reflexivity. now rewrite H.
  - destruct e; simpl; try reflexivity. now rewrite H.
Qed.



End WithTimeout.

Section Delayed.
Context {T R : Type}.

Lemma delayed_handle_consistent
    (t : delayed T R) (e : delayed_event T R) :
  consistent (delayed_deferred t) ->
  consistent (delayed_deferred (delayed_handle t e)).
Proof.
  intros H. destruct e as [c|]; simpl.
  - now apply perform_consistent.
  - destruct (delay_pending t); simpl; [|exact H].
    exact (perform_consistent (delayed_deferred t)
             (Resolve (delayed_value t)) H).
Qed.

Lemma delayed_handle_all_consistent
    (events : list (delayed_event T R)) (t : delayed T R) :
  consistent (delayed_deferred t) ->
  consistent (delayed_deferred (delayed_handle_all events t)).
Proof.
  unfold delayed_handle_all. revert t.
  induction events as [|e events IH]; intros t H; [exact H|].
  simpl. apply IH. now apply delayed_handle_consistent.
Qed.

Lemma delayed_handle_all_settled
    (events : list (delayed_event T R)) (t : delayed T R) :
  isSettled (delayed_deferred t) = true ->
  delayed_deferred (delayed_handle_all events t) = delayed_deferred t.
Proof.
  unfold delayed_handle_all. revert t.
  induction events as [|e events IH]; intros t H; [reflexivity|].
  simpl.
  assert (E : delayed_deferred (delayed_handle t e) = delayed_deferred t).
  { destruct e as [[value|reason]|]; cbn [delayed_handle delayed_deferred perform];
      rewrite ?resolve_settled, ?reject_settled by exact H;
      try reflexivity.
    destruct (delay_pending t); cbn [delayed_deferred];
      rewrite ?resolve_settled by exact H; reflexivity. }
  rewrite IH; rewrite E; [reflexivity|exact H].
Qed.


End Delayed.


End DeferredExtras.
